(** * AiSD teaching utilities ([utils.py]): the Fibonacci call tree and the
    interactive array wrapper

    Conventions of the embedding.  Python integers are [Z] and
    dictionaries are [gmap].  A call that may raise returns a [result];
    a method that updates its instance returns the instance after the
    call next to the outcome, because an exception does not undo the
    updates made before it.  The recursion of [draw_fib_tree_internal]
    is bounded by a recursion depth.  Numbers held in arrays, pointer
    positions and rectangle corners are exact rationals [Q], without
    rounding, NaN or infinities; the standard deviation is the real
    square root of a rational variance.  numpy computes in float64 and
    int64: a statement that depends on the arithmetic is made for cells
    that hold finite float64 numbers ([np.float64]) or, where sums are
    involved, integers whose sums are exact ([np.exact_sums]), on which
    the exact results are the ones numpy returns.  A numpy array is its
    shape and its row-major buffer.  [__getitem__] and [__setitem__] are
    embedded for integer keys and a scalar value, the conversion of the
    value to the element type of the buffer being a parameter;
    [__sizeof__] is not embedded. *)

From Stdlib Require Import ZArith QArith Qminmax Qabs Qround Reals Qreals.
From Stdlib Require Import List Lia Lqa Ascii String.
From stdpp Require Import base tactics option list numbers strings pretty gmap.

Local Close Scope R_scope.
Local Close Scope Q_scope.
Local Open Scope Z_scope.

(** * The program *)

(** ** Graphviz: the part of [Digraph] that the tree builder drives *)

Module Graphviz.

(** A [Digraph] accumulates node statements (name, label) and edge
    statements (tail, head) in the order of the calls. *)
Record Digraph := mkDigraph {
  name  : string;
  nodes : list (string * string);
  edges : list (string * string)
}.

Definition new (nm : string) : Digraph :=
  {| name := nm; nodes := []; edges := [] |}.

(** [graph.node(name, label=label)] *)
Definition node (nm label : string) (g : Digraph) : Digraph :=
  {| name := name g; nodes := nodes g ++ [(nm, label)]; edges := edges g |}.

(** [graph.edge(tail, head)] *)
Definition edge (tail head : string) (g : Digraph) : Digraph :=
  {| name := name g; nodes := nodes g; edges := edges g ++ [(tail, head)] |}.

(** The names of the declared nodes, and the number of edges leaving a
    node. *)
Definition names (g : Digraph) : list string := (nodes g).*1.

Definition out_degree (g : Digraph) (x : string) : nat :=
  length (filter (λ e, e.1 = x) (edges g)).

End Graphviz.

(** ** [draw_fib_tree] *)

Module FibTree.
Import Graphviz.

(** [f"fib({n})_{count}"] and [f"fib({n})"] *)
Definition node_name (n count : Z) : string :=
  "fib(" +:+ pretty n +:+ ")_" +:+ pretty count.

Definition node_label (n : Z) : string :=
  "fib(" +:+ pretty n +:+ ")".

(** [counter.get(n, 0)] *)
Definition get (counter : gmap Z Z) (n : Z) : Z := default 0 (counter !! n).

(** [draw_fib_tree_internal(n, parent=None, graph=None, counter=None)].
    The graph and the counter dictionary are objects shared along the
    recursion: both are threaded through the calls.  [depth] bounds the
    depth of the recursion; the result is [None] when it is exhausted. *)
Fixpoint draw_fib_tree_internal (depth : nat) (n : Z) (parent : option string)
    (graph : option Digraph) (counter : option (gmap Z Z))
    : option (Digraph * gmap Z Z) :=
  match depth with
  | O => None
  | S depth' =>
      let graph := default (new "FibonacciTree") graph in
      let counter := default ∅ counter in
      let count := get counter n in
      let counter := <[n := count + 1]> counter in
      let node := node_name n count in
      let graph := Graphviz.node node (node_label n) graph in
      let graph :=
        match parent with
        | Some p => edge p node graph
        | None => graph
        end in
      if decide (n ≤ 1) then Some (graph, counter)
      else
        match draw_fib_tree_internal depth' (n - 1) (Some node)
                (Some graph) (Some counter) with
        | None => None
        | Some (graph, counter) =>
            draw_fib_tree_internal depth' (n - 2) (Some node)
              (Some graph) (Some counter)
        end
  end.

(** [draw_fib_tree(n)]: the graph handed to [display]. *)
Definition draw_fib_tree (depth : nat) (n : Z) : option Digraph :=
  fst <$> draw_fib_tree_internal depth n None None None.

(** The Fibonacci numbers, [fib 0 = 0], [fib 1 = 1]. *)
Fixpoint fib (n : nat) : nat :=
  match n with
  | O => 0%nat
  | S m =>
      match m with
      | O => 1%nat
      | S k => (fib m + fib k)%nat
      end
  end.

End FibTree.


(** ** The call tree: vocabulary of the proofs *)

Section TreeVocabulary.
Import Graphviz FibTree.

(** No character of [s] is a closing parenthesis. *)
Fixpoint paren_free (s : string) : Prop :=
  match s with
  | EmptyString => True
  | String a s' => a ≠ ")"%char ∧ paren_free s'
  end.

(** A node statement written by an earlier call: its occurrence index is
    below the counter of its value. *)
Definition below (counter : gmap Z Z) (nd : string * string) : Prop :=
  ∃ v k, nd = (node_name v k, node_label v) ∧ k < get counter v.

Record graph_inv (g : Digraph) (c : gmap Z Z) : Prop := mk_graph_inv {
  inv_below : Forall (below c) (nodes g);
  inv_nodup : NoDup (names g);
  inv_tails : Forall (λ e, e.1 ∈ names g) (edges g)
}.

(** Number of calls of the naive recursion, by the call-count identity. *)
Definition calls (n : Z) : nat := (2 * fib (Z.to_nat n + 1) - 1)%nat.

(** What a node written by a call for [n] looks like in the graph [g]. *)
Definition call_node (n : Z) (g : Digraph) (nd : string * string) : Prop :=
  ∃ v, nd.2 = node_label v ∧ (0 ≤ n → 0 ≤ v) ∧
       out_degree g nd.1 = if decide (v ≤ 1) then 0%nat else 2%nat.

(** The graph after the node of the current call and the edge from its
    parent have been written. *)
Definition entered (n : Z) (parent : option string) (g : Digraph)
    (c : gmap Z Z) : Digraph :=
  let nd := node_name n (get c n) in
  let g1 := Graphviz.node nd (node_label n) g in
  match parent with
  | Some p => edge p nd g1
  | None => g1
  end.

End TreeVocabulary.

(** ** The call tree: the traversal as a relation *)

Section TreeRelation.
Import Graphviz FibTree.

(** The number of edges that enter a node, and the edges that leave it, in
    the order in which they were written. *)
Definition in_degree (g : Digraph) (x : string) : nat :=
  length (filter (λ e, e.2 = x) (edges g)).

Definition out_edges (g : Digraph) (x : string) : list (string * string) :=
  filter (λ e, e.1 = x) (edges g).

(** The number of nodes with a given label. *)
Definition label_count (g : Digraph) (lbl : string) : nat :=
  length (filter (λ nd, nd.2 = lbl) (nodes g)).

(** [builds n parent g c g' c']: a call of [draw_fib_tree_internal] for [n]
    under [parent] takes the graph [g] and the counter [c] to [g'] and
    [c'].  A call with [n <= 1] writes its node and the edge from its
    parent; a call with [n > 1] then runs the call for [n - 1] and, on its
    result, the call for [n - 2], both under the node just written. *)
Inductive builds : Z → option string → Digraph → gmap Z Z →
                   Digraph → gmap Z Z → Prop :=
  | builds_leaf n parent g c :
      n ≤ 1 →
      builds n parent g c (entered n parent g c) (<[n := get c n + 1]> c)
  | builds_node n parent g c g1 c1 g2 c2 :
      1 < n →
      builds (n - 1) (Some (node_name n (get c n)))
        (entered n parent g c) (<[n := get c n + 1]> c) g1 c1 →
      builds (n - 2) (Some (node_name n (get c n))) g1 c1 g2 c2 →
      builds n parent g c g2 c2.

(** The number of calls for the value [k] that the naive recursion for [n]
    makes. *)
Definition occurrences (n k : Z) : nat :=
  if decide (n < k) then 0%nat
  else if decide (n = k) then 1%nat
  else if decide (k = 0) then fib (Z.to_nat (n - 1))
  else if decide (0 < k) then fib (Z.to_nat (n - k + 1))
  else 0%nat.

(** The edge from the parent of a call to the node of the call. *)
Definition parent_edge (parent : option string) (nd : string)
    : list (string * string) :=
  match parent with
  | Some p => [(p, nd)]
  | None => []
  end.

(** The edges of [es] that leave the node [x] of value [v]: none for a
    leaf, otherwise one to a node of value [v - 1] followed by one to a node
    of value [v - 2]. *)
Definition kids (es : list (string * string)) (x : string) (v : Z) : Prop :=
  if decide (v ≤ 1) then filter (λ e, e.1 = x) es = []
  else ∃ k1 k2, filter (λ e, e.1 = x) es
                = [(x, node_name (v - 1) k1); (x, node_name (v - 2) k2)].

(** A node statement written during a call for [n]. *)
Definition call_shape (es : list (string * string)) (n : Z)
    (nd : string * string) : Prop :=
  ∃ v k, nd = (node_name v k, node_label v) ∧ (0 ≤ n → 0 ≤ v ≤ n) ∧
         kids es (node_name v k) v.

(** What a call for [n] adds below its node [root]: the nodes [rest] and
    the edges [es]. *)
Record tree_shape (n : Z) (root : string) (rest es : list (string * string))
    : Prop := mk_tree_shape {
  shape_length : length es = length rest;
  shape_ends : Forall (λ e, e.1 ∈ root :: rest.*1 ∧ e.2 ∈ rest.*1) es;
  shape_in : ∀ x, x ∈ rest.*1 → length (filter (λ e, e.2 = x) es) = 1%nat;
  shape_kids : Forall (call_shape es n) ((root, node_label n) :: rest)
}.

(** The names of the nodes of value [v] are the occurrence indices below
    the counter of [v]. *)
Definition counted (g : Digraph) (c : gmap Z Z) : Prop :=
  (∀ v, 0 ≤ get c v) ∧
  (∀ v j, node_name v j ∈ names g ↔ 0 ≤ j < get c v).

End TreeRelation.

(** ** Python values and exceptions *)

Inductive exn :=
  | IndexError | AttributeError | ValueError | AxisError | TypeError
  | NotImplementedError.

(** The outcome of a call that may raise. *)
Inductive result (A : Type) :=
  | Ok (a : A)
  | Raise (e : exn).
Arguments Ok {A} a.
Arguments Raise {A} e.

Global Instance result_ret : MRet result := @Ok.
Global Instance result_bind : MBind result := λ A B f r,
  match r with
  | Ok a => f a
  | Raise e => Raise e
  end.
Global Instance result_fmap : FMap result := λ A B f r,
  match r with
  | Ok a => Ok (f a)
  | Raise e => Raise e
  end.

(** ** numpy: arrays as a shape and a row-major buffer *)

Module np.

Record ndarray (A : Type) := mk_ndarray {
  shape : list nat;
  data  : list A
}.
Arguments mk_ndarray {A} shape data.
Arguments shape {A} n.
Arguments data {A} n.

(** Number of elements of an array of a given shape. *)
Definition size (shp : list nat) : nat := foldr Nat.mul 1%nat shp.

(** The buffer holds one element per index. *)
Definition wf {A} (a : ndarray A) : Prop := length (data a) = size (shape a).

(** What the constructor of the wrapper may be handed: a Python number,
    a Python list of numbers, or an array (a numpy scalar is an array of
    shape [()]).  Only the last has a [.shape]. *)
Inductive pyobj (A : Type) :=
  | PyNumber (x : A)
  | PyList (l : list A)
  | NdArray (a : ndarray A).
Arguments PyNumber {A} x.
Arguments PyList {A} l.
Arguments NdArray {A} a.

(** [np.array(obj)] *)
Definition array {A} (obj : pyobj A) : ndarray A :=
  match obj with
  | PyNumber x => {| shape := []; data := [x] |}
  | PyList l => {| shape := [length l]; data := l |}
  | NdArray a => a
  end.

(** [obj.shape] *)
Definition shape_of {A} (obj : pyobj A) : result (list nat) :=
  match obj with
  | NdArray a => Ok (shape a)
  | _ => Raise AttributeError
  end.

(** [shape[i]] on the shape tuple *)
Definition dim (shp : list nat) (i : nat) : result nat :=
  match shp !! i with
  | Some d => Ok d
  | None => Raise IndexError
  end.

(** [len(a)] *)
Definition len {A} (a : ndarray A) : result nat :=
  match shape a with
  | [] => Raise TypeError
  | d :: _ => Ok d
  end.

(** [np.arange(n)] *)
Definition arange (n : nat) : list Z := Z.of_nat <$> seq 0 n.

(** An integer index into an axis of length [d]: negative indices count
    from the end, anything outside [-d .. d-1] raises. *)
Definition index (i : Z) (d : nat) : result nat :=
  if decide (0 ≤ i < Z.of_nat d) then Ok (Z.to_nat i)
  else if decide (- Z.of_nat d ≤ i < 0) then Ok (Z.to_nat (i + Z.of_nat d))
  else Raise IndexError.

(** The [k]-th block of shape [rest] of the buffer. *)
Definition block {A} (a : ndarray A) (k : nat) (rest : list nat) : ndarray A :=
  {| shape := rest;
     data := take (size rest) (drop (k * size rest) (data a)) |}.

(** [a[i]] *)
Definition getitem {A} (a : ndarray A) (i : Z) : result (ndarray A) :=
  match shape a with
  | [] => Raise IndexError
  | d :: rest => k ← index i d; Ok (block a k rest)
  end.

(** [a[i, j]] *)
Definition getitem2 {A} (a : ndarray A) (i j : Z) : result (ndarray A) :=
  match shape a with
  | d1 :: d2 :: rest =>
      k1 ← index i d1; k2 ← index j d2; Ok (block a (k1 * d2 + k2) rest)
  | _ => Raise IndexError
  end.

(** [np.sum(a, axis=None)] and [np.sum(a, axis=k)] *)
Definition total (l : list Q) : Q := foldr Qplus 0%Q l.

Definition sum_axis (a : ndarray Q) (k : nat) : ndarray Q :=
  let pre := take k (shape a) in
  let d := nth k (shape a) 0%nat in
  let post := drop (S k) (shape a) in
  let inner := size post in
  {| shape := pre ++ post;
     data :=
       o ← seq 0 (size pre);
       i ← seq 0 inner;
       [total ((λ j, nth ((o * d + j) * inner + i) (data a) 0%Q) <$> seq 0 d)] |}.

Definition axis_index (k : Z) (nd : nat) : result nat :=
  if decide (0 ≤ k < Z.of_nat nd) then Ok (Z.to_nat k)
  else if decide (- Z.of_nat nd ≤ k < 0) then Ok (Z.to_nat (k + Z.of_nat nd))
  else Raise AxisError.

(** A reduction of an array without axes accepts the axes 0 and -1 and
    returns the scalar. *)
Definition sum (a : ndarray Q) (axis : option Z) : result (ndarray Q) :=
  match axis with
  | None => Ok {| shape := []; data := [total (data a)] |}
  | Some k =>
      match shape a with
      | [] =>
          if decide (k = 0 ∨ k = -1)
          then Ok {| shape := []; data := [total (data a)] |}
          else Raise AxisError
      | _ => k' ← axis_index k (length (shape a)); Ok (sum_axis a k')
      end
  end.

(** Broadcasting of two shapes, aligned from the last axis: equal
    lengths, or one of them 1; otherwise the operation raises. *)
Fixpoint broadcast_rev (r1 r2 : list nat) : result (list nat) :=
  match r1 with
  | [] => Ok r2
  | d1 :: r1' =>
      match r2 with
      | [] => Ok r1
      | d2 :: r2' =>
          rest ← broadcast_rev r1' r2';
          if decide (d1 = d2) then Ok (d1 :: rest)
          else if decide (d1 = 1%nat) then Ok (d2 :: rest)
          else if decide (d2 = 1%nat) then Ok (d1 :: rest)
          else Raise ValueError
      end
  end.

Definition broadcast_shapes (s1 s2 : list nat) : result (list nat) :=
  reverse <$> broadcast_rev (reverse s1) (reverse s2).

(** The buffer of an array of shape [src] seen with shape [tgt], where
    each axis of [src] has the length of the axis of [tgt] or length 1. *)
Fixpoint expand {A} (src tgt : list nat) (d : list A) : list A :=
  match src, tgt with
  | s :: src', t :: tgt' =>
      if decide (s = t)
      then i ← seq 0 s;
           expand src' tgt' (take (size src') (drop (i * size src') d))
      else mjoin (replicate t (expand src' tgt' d))
  | _, _ => d
  end.

Definition broadcast_to {A} (a : ndarray A) (tgt : list nat) : list A :=
  expand (replicate (length tgt - length (shape a)) 1%nat ++ shape a) tgt
    (data a).

(** An elementwise binary operation [a op b]. *)
Definition binary {A B C} (f : A → B → C) (a : ndarray A) (b : ndarray B)
    : result (ndarray C) :=
  shp ← broadcast_shapes (shape a) (shape b);
  Ok {| shape := shp;
        data := zip_with f (broadcast_to a shp) (broadcast_to b shp) |}.

(** Reductions over the flattened values.  [np.min] and [np.max] raise on
    an empty input. *)
Definition min (l : list Q) : result Q :=
  match l with
  | [] => Raise ValueError
  | x :: l' => Ok (foldl Qmin x l')
  end.

Definition max (l : list Q) : result Q :=
  match l with
  | [] => Raise ValueError
  | x :: l' => Ok (foldl Qmax x l')
  end.

Fixpoint insert_sorted (x : Q) (l : list Q) : list Q :=
  match l with
  | [] => [x]
  | y :: l' => if Qle_bool x y then x :: l else y :: insert_sorted x l'
  end.

Definition sort (l : list Q) : list Q := foldr insert_sorted [] l.

(** [np.median]: the middle of the sorted values, the mean of the two
    middle ones for an even count. *)
Definition median (l : list Q) : Q :=
  let s := sort l in
  let n := length l in
  if Nat.even n
  then ((nth (n / 2 - 1) s 0 + nth (n / 2) s 0) / 2)%Q
  else nth (n / 2) s 0%Q.

Definition mean (l : list Q) : Q :=
  (total l / inject_Z (Z.of_nat (length l)))%Q.

(** [np.std]: the population standard deviation
    [sqrt(mean(abs(x - mean)**2))]. *)
Definition var (l : list Q) : Q :=
  mean ((λ x, (Qabs (x - mean l)) ^ 2)%Q <$> l).

Definition std (l : list Q) : R := sqrt (Q2R (var l)).

(** Python's [int(x)]: truncation towards zero. *)
Definition int (q : Q) : Z := Z.quot (Qnum q) (Zpos (Qden q)).

(** [np.floor] *)
Definition floor (q : Q) : Z := Qfloor q.

(** The buffer with the [k]-th block of shape [rest] filled with [x]. *)
Definition fill {A} (a : ndarray A) (k : nat) (rest : list nat) (x : A)
    : ndarray A :=
  {| shape := shape a;
     data := take (k * size rest) (data a) ++ replicate (size rest) x
             ++ drop (k * size rest + size rest) (data a) |}.

(** [a[i] = v] and [a[i, j] = v] with a scalar [v]: numpy finds the place,
    then converts [v] to the element type of the buffer, which may change
    it (1.5 stored in an integer array is 1) or raise, and sets the cell, or
    every cell of the sub-array at the index, to the converted value.
    [cast] is the conversion of the buffer's element type. *)
Definition setitem {V A} (cast : V → result A) (a : ndarray A) (i : Z) (v : V)
    : result (ndarray A) :=
  match shape a with
  | [] => Raise IndexError
  | d :: rest => k ← index i d; x ← cast v; Ok (fill a k rest x)
  end.

Definition setitem2 {V A} (cast : V → result A) (a : ndarray A) (i j : Z)
    (v : V) : result (ndarray A) :=
  match shape a with
  | d1 :: d2 :: rest =>
      k1 ← index i d1; k2 ← index j d2; x ← cast v;
      Ok (fill a (k1 * d2 + k2) rest x)
  | _ => Raise IndexError
  end.

(** The rationals that are finite float64 numbers: [m * 2^e] with a
    mantissa below [2^53] and an exponent a float64 has.  An int64 of
    magnitude below [2^53] is one of them. *)
Definition float64 (q : Q) : Prop :=
  ∃ m e : Z, Z.abs m < 2 ^ 53 ∧ -1074 ≤ e ≤ 971 ∧
             (q == inject_Z m * 2 ^ e)%Q.

(** Integers whose absolute values add up to at most [2^53]: every sum of
    some of them, in any order, is exact in int64 and in float64. *)
Definition exact_sums (l : list Q) : Prop :=
  Forall (λ v, ∃ n : Z, (v == inject_Z n)%Q) l ∧
  (total (Qabs <$> l) <= inject_Z (2 ^ 53))%Q.

End np.


(** ** matplotlib: rectangles, axes and pointer events *)

Module mpl.

(** A tick label: [np.arange] gives integers, a caller may give text. *)
Inductive label :=
  | IntLabel (z : Z)
  | StrLabel (s : string).

(** [Rectangle(xy, width, height, linewidth=..., edgecolor=...,
    facecolor=...)].  [added] records that [add_patch] has put the
    rectangle on an axes; [remove()] raises for one that never was. *)
Record Rectangle := mk_Rectangle {
  xy : Q * Q;
  width : Q;
  height : Q;
  linewidth : Q;
  edgecolor : string;
  facecolor : string;
  added : bool
}.

(** [event.xdata], [event.ydata]: [None] outside the axes. *)
Record MouseEvent := mk_MouseEvent {
  xdata : option Q;
  ydata : option Q
}.

(** What [display] and [onclick] put on an axes: the cell texts with
    their position (x, y), the tick positions and labels of both axes,
    and the patches. *)
Record Axes := mk_Axes {
  texts : list (Z * Z * Q);
  xtick_locs : list Z;
  xticklabels : list label;
  ytick_locs : list Z;
  yticklabels : list label;
  patches : list Rectangle
}.

(** [xy == other] on tuples of floats *)
Definition same_xy (p q : Q * Q) : bool :=
  Qeq_bool p.1 q.1 && Qeq_bool p.2 q.2.

(** [ax.add_patch(rect)] *)
Definition add_patch (rect : Rectangle) (a : Axes) : Axes :=
  {| texts := texts a; xtick_locs := xtick_locs a; xticklabels := xticklabels a;
     ytick_locs := ytick_locs a; yticklabels := yticklabels a;
     patches := patches a ++ [rect] |}.

Fixpoint remove_xy (p : Q * Q) (l : list Rectangle) : list Rectangle :=
  match l with
  | [] => []
  | r :: l' => if same_xy (xy r) p then l' else r :: remove_xy p l'
  end.

(** The effect of [rect.remove()] on an axes: the rectangle leaves the
    patches if it is one of them. *)
Definition remove_patch (rect : Rectangle) (a : Axes) : Axes :=
  {| texts := texts a; xtick_locs := xtick_locs a; xticklabels := xticklabels a;
     ytick_locs := ytick_locs a; yticklabels := yticklabels a;
     patches := remove_xy (xy rect) (patches a) |}.

End mpl.

(** ** [class InteractiveArray] *)

Module InteractiveArray.
Import mpl.

(** The attributes of an instance.  [yticks] is [None] when the
    attribute was not set by [__init__]. *)
Record t (A : Type) := mk {
  arr : np.ndarray A;
  stats : bool;
  highlight_rects : list Rectangle;
  ax : option Axes;
  shape : list nat;
  xticks : list label;
  yticks : option (list label)
}.
Arguments mk {A} arr stats highlight_rects ax shape xticks yticks.
Arguments arr {A} t.
Arguments stats {A} t.
Arguments highlight_rects {A} t.
Arguments ax {A} t.
Arguments shape {A} t.
Arguments xticks {A} t.
Arguments yticks {A} t.

Definition set_highlight_rects {A} (l : list Rectangle) (self : t A) : t A :=
  mk (arr self) (stats self) l (ax self) (shape self) (xticks self)
     (yticks self).

Definition set_ax {A} (a : option Axes) (self : t A) : t A :=
  mk (arr self) (stats self) (highlight_rects self) a (shape self)
     (xticks self) (yticks self).

(** [__init__(self, arr, stats=False, xticks=None, yticks=None)] *)
Definition __init__ {A} (arr : np.pyobj A) (stats : bool)
    (xticks yticks : option (list label)) : result (t A) :=
  let self_arr := np.array arr in
  shp ← np.shape_of arr;
  xt ← match xticks with
       | Some l => Ok l
       | None => d ← np.dim shp 0; Ok (IntLabel <$> np.arange d)
       end;
  yt ← (if decide (1 < length shp)%nat
        then match yticks with
             | Some l => Ok (Some l)
             | None => d ← np.dim shp 1; Ok (Some (IntLabel <$> np.arange d))
             end
        else Ok None);
  Ok (mk self_arr stats [] None shp xt yt).

(** [sum(self, axis=None)] *)
Definition sum (self : t Q) (axis : option Z) : result (t Q) :=
  a ← np.sum (arr self) axis;
  __init__ (np.NdArray a) false None None.

(** The statistics shown in the title. *)
Record Stats := mk_Stats {
  min_val : Q;
  max_val : Q;
  median_val : Q;
  mean_val : Q;
  std_val : R;
  sum_val : Q
}.

(** What [update_stats] hands to [plt.title]: the empty string or the
    statistics. *)
Inductive title :=
  | NoStats
  | StatsTitle (s : Stats).

(** The body of the loop of [update_stats]: the element a rectangle
    highlights. *)
Definition highlighted_element (self : t Q) (rect : Rectangle)
    : result (np.ndarray Q) :=
  let row := np.int ((xy rect).2 + (1 # 2))%Q in
  let col := np.int ((xy rect).1 + (1 # 2))%Q in
  if decide (length (np.shape (arr self)) = 1%nat)
  then np.getitem (arr self) col
  else np.getitem2 (arr self) row col.

(** [update_stats(self)]: the title it sets. *)
Definition update_stats (self : t Q) : result title :=
  highlighted_elements ← mapM (highlighted_element self) (highlight_rects self);
  match highlighted_elements with
  | [] => Ok NoStats
  | _ =>
      let values := highlighted_elements ≫= np.data in
      min_val ← np.min values;
      max_val ← np.max values;
      Ok (StatsTitle
            {| min_val := min_val; max_val := max_val;
               median_val := np.median values; mean_val := np.mean values;
               std_val := np.std values; sum_val := np.total values |})
  end.

(** The cell (col, row) a pointer position rounds to. *)
Definition cell_of_event (event : MouseEvent) : result (Z * Z) :=
  match xdata event with
  | None => Raise TypeError
  | Some x =>
      match ydata event with
      | None => Raise TypeError
      | Some y => Ok (np.floor (x + (1 # 2))%Q, np.floor (y + (1 # 2))%Q)
      end
  end.

(** [(col - 0.5, row - 0.5)] *)
Definition corner (col row : Z) : Q * Q :=
  (inject_Z col - (1 # 2), inject_Z row - (1 # 2))%Q.

(** [Rectangle((col - 0.5, row - 0.5), 1, 1, linewidth=2, edgecolor="r",
    facecolor="none")] *)
Definition new_rect (col row : Z) : Rectangle :=
  {| xy := corner col row; width := 1; height := 1; linewidth := 2;
     edgecolor := "r"; facecolor := "none"; added := false |}.

Definition mark_added (rect : Rectangle) : Rectangle :=
  {| xy := xy rect; width := width rect; height := height rect;
     linewidth := linewidth rect; edgecolor := edgecolor rect;
     facecolor := facecolor rect; added := true |}.

(** [onclick(self, event)]: the instance after the call, and the title set
    or the exception raised.  The instance is returned in both cases: an
    exception does not undo the updates made before it. *)
Definition onclick (self : t Q) (event : MouseEvent) : t Q * result title :=
  match cell_of_event event with
  | Raise e => (self, Raise e)
  | Ok (col, row) =>
      match list_find (λ rect, same_xy (xy rect) (corner col row) = true)
              (highlight_rects self) with
      | Some (i, rect) =>
          if added rect then
            let self := set_ax (remove_patch rect <$> ax self) self in
            let self :=
              set_highlight_rects (delete i (highlight_rects self)) self in
            (self, update_stats self)
          else (self, Raise NotImplementedError)
      | None =>
          let rect := new_rect col row in
          match ax self with
          | None =>
              (set_highlight_rects (highlight_rects self ++ [rect]) self,
               Raise AttributeError)
          | Some a =>
              let rect := mark_added rect in
              let self :=
                set_highlight_rects (highlight_rects self ++ [rect]) self in
              let self := set_ax (Some (add_patch rect a)) self in
              (self, update_stats self)
          end
      end
  end.

(** The end of [display]: the click handler is connected and, with
    [stats], the title is computed. *)
Definition show (self : t Q) : t Q * result (list string) :=
  if stats self then
    match update_stats self with
    | Ok _ => (self, Ok [])
    | Raise e => (self, Raise e)
    end
  else (self, Ok []).

(** [display(self, clear=True)]: the instance after the call and the lines
    printed, or the exception raised. *)
Definition display (self : t Q) (clear : bool)
    : t Q * result (list string) :=
  match np.shape (arr self) with
  | [n] =>
      let a :=
        {| texts := imap (λ i v, (Z.of_nat i, 0, v)) (np.data (arr self));
           xtick_locs := np.arange n;
           xticklabels := xticks self;
           ytick_locs := [];
           yticklabels := [];
           patches := [] |} in
      show (set_ax (Some a) self)
  | [rows; cols] =>
      let cells :=
        i ← seq 0 rows;
        j ← seq 0 cols;
        [(Z.of_nat j, Z.of_nat i,
          nth (i * cols + j) (np.data (arr self)) 0%Q)] in
      let a1 :=
        {| texts := cells; xtick_locs := np.arange rows;
           xticklabels := xticks self;
           ytick_locs := []; yticklabels := []; patches := [] |} in
      if decide (rows = 0%nat)
      then (set_ax (Some a1) self, Raise IndexError)
      else
        let a2 yl :=
          {| texts := cells; xtick_locs := np.arange rows;
             xticklabels := xticks self;
             ytick_locs := np.arange cols; yticklabels := yl;
             patches := [] |} in
        match yticks self with
        | None => (set_ax (Some (a2 [])) self, Raise AttributeError)
        | Some yl => show (set_ax (Some (a2 yl)) self)
        end
  | _ => (self, Ok ["Array dimensions not supported."])
  end.

(** [__repr__(self)]: renders the instance and returns the empty string. *)
Definition __repr__ (self : t Q) : t Q * result string :=
  let '(self, out) := display self true in
  (self, out ≫= λ _, Ok "").

(** The operand of an operator: another instance or a raw value. *)
Inductive operand (A : Type) :=
  | Wrapped (w : t A)
  | Raw (o : np.pyobj A).
Arguments Wrapped {A} w.
Arguments Raw {A} o.

(** The common body of the operators:
    [if isinstance(other, InteractiveArray):
       return InteractiveArray(self.arr op other.arr)
     return InteractiveArray(self.arr op other)] *)
Definition binary_op {A B C} (op : A → B → C) (self : t A)
    (other : operand B) : result (t C) :=
  match other with
  | Wrapped w =>
      r ← np.binary op (arr self) (arr w);
      __init__ (np.NdArray r) false None None
  | Raw o =>
      r ← np.binary op (arr self) (np.array o);
      __init__ (np.NdArray r) false None None
  end.

Section Operators.
(** The scalar operations of numpy behind [+ - * / **] and the
    comparisons. *)
Context {A : Type}.
Variables add subtract multiply true_divide power : A → A → A.
Variables greater less greater_equal less_equal equal : A → A → bool.

Definition __add__ := binary_op add.
Definition __sub__ := binary_op subtract.
Definition __mul__ := binary_op multiply.
Definition __truediv__ := binary_op true_divide.
Definition __pow__ := binary_op power.
Definition __gt__ := binary_op greater.
Definition __lt__ := binary_op less.
Definition __ge__ := binary_op greater_equal.
Definition __le__ := binary_op less_equal.
Definition __eq__ := binary_op equal.

(** The truth value of an instance: the class defines neither
    [__bool__] nor [__len__], so Python's default applies. *)
Definition __bool__ {B} (self : t B) : bool := true.

(** [self != other]: the class defines no [__ne__], so Python's default
    applies, which negates the truth value of [self == other]. *)
Definition __ne__ (self : t A) (other : operand A) : result bool :=
  r ← __eq__ self other;
  Ok (negb (__bool__ r)).
End Operators.

(** An integer key [w[i]] or a pair of integers [w[i, j]]. *)
Inductive key :=
  | Index (i : Z)
  | Index2 (i j : Z).

Definition set_arr {A} (a : np.ndarray A) (self : t A) : t A :=
  mk a (stats self) (highlight_rects self) (ax self) (shape self)
     (xticks self) (yticks self).

(** [__getitem__(self, key)]: a numpy scalar, of shape [()], is returned
    as it is; an array is wrapped in a new instance. *)
Definition __getitem__ {A} (self : t A) (k : key)
    : result (np.ndarray A + t A) :=
  item ← match k with
         | Index i => np.getitem (arr self) i
         | Index2 i j => np.getitem2 (arr self) i j
         end;
  match np.shape item with
  | [] => Ok (inl item)
  | _ => w ← __init__ (np.NdArray item) false None None; Ok (inr w)
  end.

(** [__setitem__(self, key, value)] with a scalar [value]: the buffer is
    updated in place with the value converted to its element type; an
    index or a value that numpy refuses leaves it as it was. *)
Definition __setitem__ {V A} (cast : V → result A) (self : t A) (k : key)
    (value : V) : t A * result unit :=
  match match k with
        | Index i => np.setitem cast (arr self) i value
        | Index2 i j => np.setitem2 cast (arr self) i j value
        end with
  | Ok a => (set_arr a self, Ok ())
  | Raise e => (self, Raise e)
  end.

End InteractiveArray.

(** ** The wrapper: vocabulary of the proofs *)

Section WrapperVocabulary.
Import mpl InteractiveArray.

(** The cell (col, row) a rectangle highlights, as [update_stats] reads
    it. *)
Definition cell_of (rect : Rectangle) : Z * Z :=
  (np.int ((xy rect).1 + (1 # 2))%Q, np.int ((xy rect).2 + (1 # 2))%Q).

(** The set of highlighted cells. *)
Definition HighlightSet (self : t Q) : gset (Z * Z) :=
  list_to_set (cell_of <$> highlight_rects self).

(** A rectangle as [onclick] leaves it in the list once it is on the
    axes. *)
Definition on_axes (rect : Rectangle) : Prop :=
  ∃ col row, rect = mark_added (new_rect col row).

(** The state of an instance that has been rendered: it has an axes, and
    its rectangles are on an axes and highlight pairwise distinct cells. *)
Record rendered_inv (self : t Q) : Prop := mk_rendered_inv {
  inv_ax : is_Some (ax self);
  inv_rects : Forall on_axes (highlight_rects self);
  inv_cells : NoDup (cell_of <$> highlight_rects self)
}.

(** The instances a user can reach: one that was constructed and rendered,
    then re-rendered or clicked any number of times. *)
Inductive rendered : t Q → Prop :=
  | rendered_first obj stats xticks yticks self clear :
      __init__ obj stats xticks yticks = Ok self →
      is_Some (ax (display self clear).1) →
      rendered (display self clear).1
  | rendered_again self clear :
      rendered self → rendered (display self clear).1
  | rendered_click self event :
      rendered self → rendered (onclick self event).1.

(** An index that numpy accepts on an axis of length [d]. *)
Definition index_ok (d : nat) (i : Z) : Prop := - Z.of_nat d ≤ i < Z.of_nat d.

(** The cell (col, row) is one that [update_stats] can read. *)
Definition readable (shp : list nat) (col row : Z) : Prop :=
  match shp with
  | [] => False
  | [n] => index_ok n col
  | rows :: cols :: _ => index_ok rows row ∧ index_ok cols col
  end.


(** An axis that a reduction of an array with [nd] axes accepts: an
    integer in [-nd .. nd - 1], and 0 or -1 when there is no axis. *)
Definition axis_ok (nd : nat) (k : Z) : Prop :=
  match nd with
  | O => k = 0 ∨ k = -1
  | _ => index_ok nd k
  end.

(** The position on an axis of length [d] that a valid index [i] names:
    [i] itself, or [i + d] for a negative one. *)
Definition position (d : nat) (i : Z) : nat := Z.to_nat (i `mod` Z.of_nat d).

(** The value of the cell (col, row) of an array of rank 1 (the row is not
    used) or 2, negative indices counting from the end. *)
Definition cell_value (a : np.ndarray Q) (col row : Z) : Q :=
  match np.shape a with
  | [n] => nth (position n col) (np.data a) 0%Q
  | rows :: cols :: _ =>
      nth (position rows row * cols + position cols col) (np.data a) 0%Q
  | [] => 0%Q
  end.

(** The values at the highlighted cells, in the order of the highlight
    list. *)
Definition highlighted_values (self : t Q) : list Q :=
  (λ rect, cell_value (arr self) (cell_of rect).1 (cell_of rect).2)
    <$> highlight_rects self.

(** The outcome of an operator that returns a new instance with the shape
    [shp] and the buffer [buf]: no highlight, no axes, [stats] off and the
    default x labels of the first axis. *)
Definition fresh_result {C} (r : result (t C)) (shp : list nat)
    (buf : list C) : Prop :=
  ∃ w, r = Ok w ∧
       arr w = {| np.shape := shp; np.data := buf |} ∧
       highlight_rects w = [] ∧ ax w = None ∧ stats w = false ∧
       xticks w = IntLabel <$> np.arange (hd 0%nat shp).

End WrapperVocabulary.

(** ** Sample instances *)

Section Samples.
Import mpl InteractiveArray.

(** A pointer event inside the axes. *)
Definition click (x y : Q) : MouseEvent :=
  {| xdata := Some x; ydata := Some y |}.

(** [np.array([10, 20, 30])] and [np.array([[1, 2, 3], [4, 5, 6]])] *)
Definition sample_1d : np.ndarray Q :=
  {| np.shape := [3%nat]; np.data := [10; 20; 30]%Q |}.

Definition sample_2x3 : np.ndarray Q :=
  {| np.shape := [2%nat; 3%nat]; np.data := [1; 2; 3; 4; 5; 6]%Q |}.

(** [InteractiveArray(sample_1d)] and [InteractiveArray(sample_2x3)] *)
Definition wrapped_1d : t Q :=
  mk sample_1d false [] None [3%nat] (IntLabel <$> [0; 1; 2]) None.

(** [InteractiveArray(np.array([10, 21, 30]))] *)
Definition wrapped_1d_other : t Q :=
  mk {| np.shape := [3%nat]; np.data := [10; 21; 30]%Q |} false [] None
     [3%nat] (IntLabel <$> [0; 1; 2]) None.

Definition wrapped_2x3 : t Q :=
  mk sample_2x3 false [] None [2%nat; 3%nat] (IntLabel <$> [0; 1])
     (Some (IntLabel <$> [0; 1; 2])).

(** [wrapped_2x3] with the cells (0, 0) and (2, -1) highlighted, and
    [wrapped_1d] with the cell 1 and a cell outside the array highlighted. *)
Definition highlighted_2x3 : t Q :=
  set_highlight_rects
    [mark_added (new_rect 0 0); mark_added (new_rect 2 (-1))] wrapped_2x3.

Definition highlighted_1d_outside : t Q :=
  set_highlight_rects
    [mark_added (new_rect 1 0); mark_added (new_rect 7 0)] wrapped_1d.

(** The conversion of a finite number to int64, for a number within its
    range: truncation towards zero. *)
Definition int64_cast (q : Q) : result Q := Ok (inject_Z (np.int q)).

End Samples.

(** * Properties *)

Import Graphviz FibTree.


Example fib_tree_3 :
  draw_fib_tree 3 3 = Some
    {| name := "FibonacciTree";
       nodes := [("fib(3)_0", "fib(3)"); ("fib(2)_0", "fib(2)");
                 ("fib(1)_0", "fib(1)"); ("fib(0)_0", "fib(0)");
                 ("fib(1)_1", "fib(1)")];
       edges := [("fib(3)_0", "fib(2)_0"); ("fib(2)_0", "fib(1)_0");
                 ("fib(2)_0", "fib(0)_0"); ("fib(3)_0", "fib(1)_1")] |}.
Proof. vm_compute. reflexivity. Qed.

(** ** Node names are injective *)

Section Names.

Lemma paren_free_app s t : paren_free s → paren_free t → paren_free (s +:+ t).
Proof. induction s as [|a s IH]; simpl; [done|]. intros [? ?] ?. auto. Qed.

Lemma pretty_N_char_paren_free x : pretty_N_char x ≠ ")"%char.
Proof. unfold pretty_N_char. by repeat case_match. Qed.

Lemma pretty_N_go_paren_free x s : paren_free s → paren_free (pretty_N_go x s).
Proof.
  revert s. induction (N.lt_wf_0 x) as [x _ IH]. intros s Hs.
  destruct (decide (x = 0)%N) as [->|Hx].
  - by rewrite pretty_N_go_0.
  - rewrite pretty_N_go_step by lia. apply IH.
    + apply N.div_lt; lia.
    + split; [apply pretty_N_char_paren_free | done].
Qed.

Lemma pretty_N_paren_free (x : N) : paren_free (pretty x).
Proof.
  unfold pretty, pretty_N. case_decide; [by compute|].
  by apply pretty_N_go_paren_free.
Qed.

Lemma pretty_Z_paren_free (z : Z) : paren_free (pretty z).
Proof.
  destruct z as [|p|p]; unfold pretty, pretty_Z.
  - by compute.
  - apply pretty_N_paren_free.
  - apply (paren_free_app "-"); [by compute | apply pretty_N_paren_free].
Qed.

(** Two strings that agree after a parenthesis-free prefix closed by a
    parenthesis agree on the prefix and on the rest. *)
Lemma paren_split s1 s2 t1 t2 :
  paren_free s1 → paren_free t1 →
  s1 +:+ String ")" s2 = t1 +:+ String ")" t2 → s1 = t1 ∧ s2 = t2.
Proof.
  revert t1. induction s1 as [|a s1 IH]; intros [|b t1]; simpl.
  - intros _ _ [= ->]. done.
  - intros _ [Hb _] [= <- _]. done.
  - intros [Ha _] _ [= -> _]. done.
  - intros [_ Hs] [_ Ht] [= -> Heq]. by destruct (IH _ Hs Ht Heq) as [-> ->].
Qed.

Lemma node_name_inj n count n' count' :
  node_name n count = node_name n' count' → n = n' ∧ count = count'.
Proof.
  unfold node_name. intros [= Heq].
  apply (paren_split (pretty n) _ (pretty n')) in Heq
    as [Hn [= Hc]]; try apply pretty_Z_paren_free.
  split; by apply (inj pretty).
Qed.

End Names.

(** ** The call tree: invariant of the traversal *)

Section TreeInvariant.

Lemma fib_pos k : (0 < fib (S k))%nat.
Proof.
  induction k as [|k IH]; [simpl; lia|].
  change (fib (S (S k))) with (fib (S k) + fib k)%nat. lia.
Qed.

Lemma calls_base n : n ≤ 1 → calls n = 1%nat.
Proof.
  intros Hn. unfold calls.
  assert (Z.to_nat n = 0 ∨ Z.to_nat n = 1)%nat as [-> | ->] by lia; done.
Qed.

Lemma calls_step n :
  1 < n → calls n = (1 + calls (n - 1) + calls (n - 2))%nat.
Proof.
  intros Hn. unfold calls.
  assert (∃ k, Z.to_nat n = S (S k)) as [k Hk].
  { exists (Z.to_nat n - 2)%nat. lia. }
  replace (Z.to_nat (n - 1)) with (S k) by lia.
  replace (Z.to_nat (n - 2)) with k by lia.
  rewrite Hk.
  replace (S (S k) + 1)%nat with (S (S (k + 1))) by lia.
  replace (S k + 1)%nat with (S (k + 1)) by lia.
  change (fib (S (S (k + 1)))) with (fib (S (k + 1)) + fib (k + 1))%nat.
  replace (k + 1)%nat with (S k) by lia.
  pose proof (fib_pos k). pose proof (fib_pos (S k)). lia.
Qed.

Lemma out_degree_node nm l g x : out_degree (Graphviz.node nm l g) x = out_degree g x.
Proof. done. Qed.

Lemma out_degree_edge t h g x :
  out_degree (edge t h g) x
  = (out_degree g x + if decide (t = x) then 1 else 0)%nat.
Proof.
  unfold out_degree, edge; simpl.
  rewrite filter_app, length_app. f_equal.
  rewrite filter_cons; simpl. by case_decide.
Qed.

Lemma out_degree_fresh g x :
  Forall (λ e, e.1 ∈ names g) (edges g) → x ∉ names g → out_degree g x = 0%nat.
Proof.
  unfold out_degree. generalize (names g) as ns. intros ns.
  induction 1 as [|e es He _ IH]; intros Hx; [done|].
  rewrite filter_cons. case_decide as Heq; [|by apply IH].
  by subst x.
Qed.

Lemma get_insert c n k v :
  get (<[n := k]> c) v = if decide (n = v) then k else get c v.
Proof.
  unfold get. case_decide as Hv.
  - subst. by rewrite lookup_insert_eq.
  - by rewrite lookup_insert_ne.
Qed.

Lemma below_fresh g c n :
  Forall (below c) (nodes g) → node_name n (get c n) ∉ names g.
Proof.
  intros Hb Hin. unfold names in Hin.
  apply list_elem_of_fmap in Hin as [[nm lbl] [Hnm Hin]]. simpl in Hnm.
  rewrite Forall_forall in Hb. destruct (Hb _ Hin) as (v & k & [= -> ->] & Hk).
  apply node_name_inj in Hnm as [-> Hc]. lia.
Qed.

End TreeInvariant.

Section TreeSpec.

Lemma entered_nodes n parent g c :
  nodes (entered n parent g c)
  = nodes g ++ [(node_name n (get c n), node_label n)].
Proof. unfold entered. by destruct parent. Qed.

Lemma entered_name n parent g c : name (entered n parent g c) = name g.
Proof. unfold entered. by destruct parent. Qed.

Lemma entered_names n parent g c :
  names (entered n parent g c) = names g ++ [node_name n (get c n)].
Proof. unfold names. by rewrite entered_nodes, fmap_app. Qed.

Lemma entered_out_degree n parent g c x :
  out_degree (entered n parent g c) x
  = (out_degree g x + if decide (parent = Some x) then 1 else 0)%nat.
Proof.
  unfold entered. destruct parent as [p|].
  - rewrite out_degree_edge, out_degree_node.
    f_equal. repeat case_decide; congruence.
  - rewrite out_degree_node. case_decide; [done | lia].
Qed.

Lemma entered_inv n parent g c :
  graph_inv g c →
  (∀ p, parent = Some p → p ∈ names g) →
  graph_inv (entered n parent g c) (<[n := get c n + 1]> c).
Proof.
  intros [Hb Hnd Ht] Hp.
  pose proof (below_fresh g c n Hb) as Hfresh.
  split.
  - rewrite entered_nodes. apply Forall_app. split.
    + eapply Forall_impl; [exact Hb|].
      intros nd (v & k & -> & Hk). exists v, k. split; [done|].
      rewrite get_insert. case_decide; [subst; lia | done].
    + apply Forall_singleton. exists n, (get c n). split; [done|].
      rewrite get_insert. case_decide; [lia | done].
  - rewrite entered_names. apply NoDup_app. split; [done|]. split.
    + intros x Hx ->%list_elem_of_singleton. done.
    + apply NoDup_singleton.
  - rewrite entered_names.
    assert (Forall (λ e, e.1 ∈ names g ++ [node_name n (get c n)]) (edges g))
      as Hold.
    { eapply Forall_impl; [exact Ht|]. intros e He.
      apply elem_of_app. by left. }
    unfold entered. destruct parent as [p|]; simpl; [|done].
    apply Forall_app. split; [done|].
    apply Forall_singleton. simpl. apply elem_of_app. left. by apply Hp.
Qed.

Lemma entered_le n c v : get c v ≤ get (<[n := get c n + 1]> c) v.
Proof. rewrite get_insert. case_decide; [subst|]; lia. Qed.

(** One call of the builder on an existing graph and counter. *)
Lemma internal_unfold depth n parent g c :
  draw_fib_tree_internal (S depth) n parent (Some g) (Some c)
  = if decide (n ≤ 1)
    then Some (entered n parent g c, <[n := get c n + 1]> c)
    else
      match draw_fib_tree_internal depth (n - 1)
              (Some (node_name n (get c n)))
              (Some (entered n parent g c))
              (Some (<[n := get c n + 1]> c)) with
      | None => None
      | Some (g1, c1) =>
          draw_fib_tree_internal depth (n - 2)
            (Some (node_name n (get c n))) (Some g1) (Some c1)
      end.
Proof. unfold entered. destruct parent; reflexivity. Qed.

Lemma internal_spec depth : ∀ n parent g c,
  graph_inv g c →
  (∀ p, parent = Some p → p ∈ names g) →
  (1 ≤ depth)%nat → (Z.to_nat n ≤ depth)%nat →
  ∃ g' c' new,
    draw_fib_tree_internal depth n parent (Some g) (Some c) = Some (g', c') ∧
    graph_inv g' c' ∧
    (∀ v, get c v ≤ get c' v) ∧
    name g' = name g ∧
    nodes g' = nodes g ++ new ∧
    length new = calls n ∧
    (∀ x, x ∈ names g →
       out_degree g' x
       = (out_degree g x + if decide (parent = Some x) then 1 else 0)%nat) ∧
    Forall (call_node n g') new.
Proof.
  induction depth as [|depth IH]; intros n parent g c Hinv Hp Hd Hn; [lia|].
  pose proof (entered_inv n parent g c Hinv Hp) as Hinv0.
  pose proof (below_fresh g c n (inv_below _ _ Hinv)) as Hfresh.
  assert (out_degree (entered n parent g c) (node_name n (get c n)) = 0%nat)
    as Hdeg0.
  { rewrite entered_out_degree.
    rewrite (out_degree_fresh g) by (try apply Hinv; done).
    case_decide as Hpar; [|done]. by apply Hp in Hpar. }
  rewrite internal_unfold.
  set (nd := node_name n (get c n)) in *.
  set (g0 := entered n parent g c) in *.
  set (c0 := <[n := get c n + 1]> c) in *.
  case_decide as Hbase.
  - exists g0, c0, [(nd, node_label n)].
    split; [done|]. split; [done|].
    split; [intros v; apply entered_le|].
    split; [apply entered_name|].
    split; [apply entered_nodes|].
    split; [by rewrite calls_base|].
    split; [intros x _; apply entered_out_degree|].
    apply Forall_singleton. exists n. simpl.
    split; [done|]. split; [done|].
    rewrite Hdeg0. by case_decide.
  - assert (nd ∈ names g0) as Hnd0.
    { unfold g0. rewrite entered_names. apply elem_of_app. right.
      by apply list_elem_of_singleton. }
    destruct (IH (n - 1) (Some nd) g0 c0) as
      (g1 & c1 & new1 & -> & Hinv1 & Hle1 & Hname1 & Hnodes1 & Hlen1 & Hdeg1 & Hnew1);
      [done | by intros p [= <-] | lia | lia |].
    assert (names g1 = names g0 ++ new1.*1) as Hnames1.
    { unfold names. by rewrite Hnodes1, fmap_app. }
    assert (nd ∈ names g1) as Hnd1.
    { rewrite Hnames1. apply elem_of_app. by left. }
    destruct (IH (n - 2) (Some nd) g1 c1) as
      (g2 & c2 & new2 & -> & Hinv2 & Hle2 & Hname2 & Hnodes2 & Hlen2 & Hdeg2 & Hnew2);
      [done | by intros p [= <-] | lia | lia |].
    exists g2, c2, ((nd, node_label n) :: new1 ++ new2).
    split; [done|]. split; [done|].
    split.
    { intros v. etrans; [|apply Hle2]. etrans; [|apply Hle1].
      apply entered_le. }
    split.
    { rewrite Hname2, Hname1. apply entered_name. }
    split.
    { rewrite Hnodes2, Hnodes1. unfold g0. rewrite entered_nodes.
      by rewrite <- !app_assoc. }
    split.
    { simpl. rewrite length_app, Hlen1, Hlen2, (calls_step n) by lia. lia. }
    assert (∀ x, x ∈ names g0 → x ≠ nd → out_degree g2 x = out_degree g0 x)
      as Hframe.
    { intros x Hx Hne.
      rewrite Hdeg2 by (rewrite Hnames1; apply elem_of_app; by left).
      rewrite Hdeg1 by done.
      rewrite !decide_False by congruence. lia. }
    split.
    { intros x Hx.
      rewrite Hframe.
      - apply entered_out_degree.
      - unfold g0. rewrite entered_names. apply elem_of_app. by left.
      - intros ->. done. }
    apply Forall_cons. split.
    { exists n. simpl. split; [done|]. split; [done|].
      rewrite Hdeg2, Hdeg1 by done. fold nd in Hdeg0. rewrite Hdeg0.
      rewrite !decide_True by done. rewrite decide_False by done. done. }
    apply Forall_app. split.
    + rewrite Forall_forall in Hnew1 |- *. intros [nm lbl] Hin.
      destruct (Hnew1 _ Hin) as (v & Hl & Hv & Hdg). simpl in *.
      exists v. simpl. split; [done|]. split; [lia|].
      rewrite Hdeg2.
      * rewrite Hdg.
        destruct (decide (Some nd = Some nm)) as [[= ->]|_]; [exfalso | lia].
        pose proof (inv_nodup _ _ Hinv1) as Hnd. rewrite Hnames1 in Hnd.
        apply NoDup_app in Hnd as (_ & Hdisj & _).
        apply (Hdisj nm Hnd0). apply list_elem_of_fmap. by exists (nm, lbl).
      * rewrite Hnames1. apply elem_of_app. right.
        apply list_elem_of_fmap. by exists (nm, lbl).
    + eapply Forall_impl; [exact Hnew2|].
      intros [nm lbl] (v & Hl & Hv & Hdg). exists v. split; [done|].
      split; [lia | done].
Qed.

End TreeSpec.

Section TreeDepth.

(** One call of the builder, whatever the optional arguments. *)
Lemma internal_eq depth n parent graph counter :
  draw_fib_tree_internal (S depth) n parent graph counter
  = let g := default (new "FibonacciTree") graph in
    let c := default ∅ counter in
    if decide (n ≤ 1)
    then Some (entered n parent g c, <[n := get c n + 1]> c)
    else
      match draw_fib_tree_internal depth (n - 1)
              (Some (node_name n (get c n)))
              (Some (entered n parent g c))
              (Some (<[n := get c n + 1]> c)) with
      | None => None
      | Some (g1, c1) =>
          draw_fib_tree_internal depth (n - 2)
            (Some (node_name n (get c n))) (Some g1) (Some c1)
      end.
Proof. unfold entered. destruct parent; reflexivity. Qed.

(** A larger depth budget does not change a result. *)
Lemma internal_mono depth : ∀ n parent graph counter r,
  draw_fib_tree_internal depth n parent graph counter = Some r →
  draw_fib_tree_internal (S depth) n parent graph counter = Some r.
Proof.
  induction depth as [|depth IH]; intros n parent graph counter r; [done|].
  rewrite (internal_eq (S depth)), (internal_eq depth). cbv zeta.
  case_decide; [done|].
  destruct (draw_fib_tree_internal depth (n - 1) _ _ _) as [[g1 c1]|] eqn:E1;
    [|done].
  rewrite (IH _ _ _ _ _ E1). apply IH.
Qed.

Lemma internal_mono_le d d' n parent graph counter r :
  (d ≤ d')%nat →
  draw_fib_tree_internal d n parent graph counter = Some r →
  draw_fib_tree_internal d' n parent graph counter = Some r.
Proof. induction 1; [done|]. intros. by apply internal_mono, IHle. Qed.

Lemma empty_inv nm : graph_inv (new nm) ∅.
Proof. split; simpl; constructor. Qed.

End TreeDepth.

(** C1. For every [n >= 0] the builder returns, given recursion depth
    [max 1 n], a graph with pairwise distinct node names and exactly
    [2 * fib (n + 1) - 1] nodes, in which a node with an outgoing edge has
    exactly two and a node without one is labelled [fib(0)] or [fib(1)]. *)
Theorem draw_fib_tree_call_count (n : Z) :
  0 ≤ n →
  ∃ G,
    (∀ depth, Z.max 1 n ≤ Z.of_nat depth → draw_fib_tree depth n = Some G) ∧
    NoDup (names G) ∧
    Z.of_nat (length (nodes G)) = 2 * Z.of_nat (fib (Z.to_nat (n + 1))) - 1 ∧
    ∀ nm lbl, (nm, lbl) ∈ nodes G →
      (out_degree G nm ≠ 0%nat → out_degree G nm = 2%nat) ∧
      (out_degree G nm = 0%nat → lbl = "fib(0)" ∨ lbl = "fib(1)").
Proof.
  intros Hn.
  destruct (internal_spec (Z.to_nat (Z.max 1 n)) n None (new "FibonacciTree") ∅)
    as (G & c & nw & Hrun & Hinv & _ & _ & Hnodes & Hlen & _ & Hnew);
    [apply empty_inv | done | lia | lia |].
  exists G. split; [|split; [|split]].
  - intros depth Hd. unfold draw_fib_tree.
    assert (draw_fib_tree_internal depth n None None None = Some (G, c)) as ->;
      [|done].
    apply (internal_mono_le (Z.to_nat (Z.max 1 n))); [lia|].
    rewrite <- Hrun. by destruct (Z.to_nat (Z.max 1 n)).
  - apply Hinv.
  - simpl in Hnodes. rewrite Hnodes, Hlen. unfold calls.
    replace (Z.to_nat (n + 1)) with (Z.to_nat n + 1)%nat by lia.
    pose proof (fib_pos (Z.to_nat n)).
    replace (Z.to_nat n + 1)%nat with (S (Z.to_nat n)) by lia. lia.
  - intros nm lbl Hin. simpl in Hnodes. rewrite Hnodes in Hin.
    rewrite Forall_forall in Hnew.
    destruct (Hnew _ Hin) as (v & Hl & Hv & Hdg). simpl in Hl, Hdg.
    specialize (Hv Hn). rewrite Hdg. case_decide; split; try done.
    intros _. subst lbl.
    assert (v = 0 ∨ v = 1) as [-> | ->] by lia; [by left | by right].
Qed.

Lemma draw_fib_tree_call_count_witness :
  0 ≤ 4 ∧
  ∃ G,
    (∀ depth, Z.max 1 4 ≤ Z.of_nat depth → draw_fib_tree depth 4 = Some G) ∧
    NoDup (names G) ∧
    Z.of_nat (length (nodes G)) = 2 * Z.of_nat (fib (Z.to_nat (4 + 1))) - 1 ∧
    ∀ nm lbl, (nm, lbl) ∈ nodes G →
      (out_degree G nm ≠ 0%nat → out_degree G nm = 2%nat) ∧
      (out_degree G nm = 0%nat → lbl = "fib(0)" ∨ lbl = "fib(1)").
Proof. split; [lia | apply (draw_fib_tree_call_count 4); lia]. Defined.

(** C5, as stated, fails: called with [-3] the builder returns from its
    first call, through the base case [n <= 1], with a one-node graph. *)
Lemma draw_fib_tree_negative_returns :
  ¬ (∀ depth, draw_fib_tree depth (-3) = None) ∧
  draw_fib_tree 1 (-3)
  = Some {| name := "FibonacciTree";
            nodes := [("fib(-3)_0", "fib(-3)")];
            edges := [] |}.
Proof.
  split; [|vm_compute; reflexivity].
  intros H. specialize (H 1%nat). vm_compute in H. discriminate H.
Qed.

(** C5, amended. For every negative [n] the test [n <= 1] of the first call
    holds: the builder returns at recursion depth one a graph whose only
    node is [fib(n)_0], labelled [fib(n)], and that has no edge. *)
Theorem draw_fib_tree_negative_leaf (n : Z) (depth : nat) :
  n < 0 → (1 ≤ depth)%nat →
  draw_fib_tree depth n
  = Some {| name := "FibonacciTree";
            nodes := [(node_name n 0, node_label n)];
            edges := [] |}.
Proof.
  intros Hn Hd. destruct depth as [|depth]; [lia|].
  unfold draw_fib_tree. rewrite internal_eq. cbv zeta.
  rewrite decide_True by lia. reflexivity.
Qed.

Lemma draw_fib_tree_negative_leaf_witness :
  -3 < 0 ∧ (1 ≤ 1)%nat ∧
  draw_fib_tree 1 (-3)
  = Some {| name := "FibonacciTree";
            nodes := [(node_name (-3) 0, node_label (-3))];
            edges := [] |}.
Proof.
  split; [lia|]. split; [lia|].
  apply (draw_fib_tree_negative_leaf (-3) 1); lia.
Defined.

(** ** numpy: the model on small inputs *)

Example np_broadcast_row :
  np.binary Z.add {| np.shape := [2; 3]%nat; np.data := [1; 2; 3; 4; 5; 6] |}
                  {| np.shape := [3]%nat; np.data := [10; 20; 30] |}
  = Ok {| np.shape := [2; 3]%nat; np.data := [11; 22; 33; 14; 25; 36] |}.
Proof. vm_compute. reflexivity. Qed.

Example np_broadcast_col :
  np.binary Z.add {| np.shape := [2; 3]%nat; np.data := [1; 2; 3; 4; 5; 6] |}
                  {| np.shape := [2; 1]%nat; np.data := [10; 20] |}
  = Ok {| np.shape := [2; 3]%nat; np.data := [11; 12; 13; 24; 25; 26] |}.
Proof. vm_compute. reflexivity. Qed.

Example np_broadcast_mismatch :
  np.binary Z.add {| np.shape := [2; 3]%nat; np.data := [1; 2; 3; 4; 5; 6] |}
                  {| np.shape := [2]%nat; np.data := [10; 20] |}
  = Raise ValueError.
Proof. vm_compute. reflexivity. Qed.

Example np_sum_axis0 :
  np.sum {| np.shape := [2; 3]%nat; np.data := [1; 2; 3; 4; 5; 6]%Q |} (Some 0)
  = Ok {| np.shape := [3]%nat; np.data := [1 + (4 + 0); 2 + (5 + 0); 3 + (6 + 0)]%Q |}.
Proof. reflexivity. Qed.

Example np_sum_axis1 :
  np.data <$> np.sum {| np.shape := [2; 3]%nat; np.data := [1; 2; 3; 4; 5; 6]%Q |} (Some (-1))
  = Ok [1 + (2 + (3 + 0)); 4 + (5 + (6 + 0))]%Q.
Proof. reflexivity. Qed.

(** ** Highlight rectangles and cells *)

Import mpl InteractiveArray.

Section Cells.

Lemma int_corner_fst col row : np.int ((corner col row).1 + (1 # 2))%Q = col.
Proof.
  unfold np.int, corner; simpl.
  change (Z.pos (1 * 2 * 2)) with 4. change (Z.pos (1 * 2)) with 2.
  replace ((col * 2 + - (1) * 1) * 2 + 1 * 2) with (col * 4) by lia.
  apply Z.quot_mul. done.
Qed.

Lemma int_corner_snd col row : np.int ((corner col row).2 + (1 # 2))%Q = row.
Proof.
  unfold np.int, corner; simpl.
  change (Z.pos (1 * 2 * 2)) with 4. change (Z.pos (1 * 2)) with 2.
  replace ((row * 2 + - (1) * 1) * 2 + 1 * 2) with (row * 4) by lia.
  apply Z.quot_mul. done.
Qed.

Lemma same_xy_corner col row col' row' :
  same_xy (corner col row) (corner col' row') = true ↔ col = col' ∧ row = row'.
Proof.
  unfold same_xy, corner; simpl.
  rewrite andb_true_iff, !Qeq_bool_iff. unfold Qeq; simpl. lia.
Qed.

End Cells.

(** ** Clicks and the highlight list *)

Section Highlight.

Lemma cell_of_on_axes col row : cell_of (mark_added (new_rect col row)) = (col, row).
Proof.
  unfold cell_of. change (xy (mark_added (new_rect col row))) with (corner col row).
  by rewrite int_corner_fst, int_corner_snd.
Qed.

(** On rectangles that are on an axes, the test of [onclick] compares
    cells. *)
Lemma same_xy_cell rect col row :
  on_axes rect →
  same_xy (xy rect) (corner col row) = true ↔ rect = mark_added (new_rect col row).
Proof.
  intros (c & r & ->). simpl. rewrite same_xy_corner. split.
  - by intros [-> ->].
  - intros Heq. apply (f_equal cell_of) in Heq.
    rewrite !cell_of_on_axes in Heq. by simplify_eq.
Qed.

Lemma delete_length_app {A} (l : list A) x : delete (length l) (l ++ [x]) = l.
Proof. induction l as [|y l IH]; simpl; [done|]. by rewrite IH. Qed.

(** The highlight list after a click on the cell (col, row) of a rendered
    instance. *)
Lemma onclick_highlight self event col row :
  cell_of_event event = Ok (col, row) →
  is_Some (ax self) →
  Forall on_axes (highlight_rects self) →
  highlight_rects (onclick self event).1
  = match list_find (λ rect, same_xy (xy rect) (corner col row) = true)
            (highlight_rects self) with
    | Some (i, _) => delete i (highlight_rects self)
    | None => highlight_rects self ++ [mark_added (new_rect col row)]
    end
  ∧ is_Some (ax (onclick self event).1).
Proof.
  intros He [a Ha] Hrects. unfold onclick. rewrite He.
  destruct (list_find _ _) as [[i rect]|] eqn:Hf.
  - apply list_find_Some in Hf as (Hi & HP & _).
    rewrite Forall_lookup in Hrects.
    destruct (Hrects _ _ Hi) as (c & r & ->). simpl.
    split; [done|]. rewrite Ha. by eexists.
  - rewrite Ha. simpl. split; [done | by eexists].
Qed.

Lemma onclick_no_cell self event e :
  cell_of_event event = Raise e → (onclick self event).1 = self.
Proof. intros He. unfold onclick. by rewrite He. Qed.

Lemma onclick_inv self event : rendered_inv self → rendered_inv (onclick self event).1.
Proof.
  intros [Hax Hrects Hcells].
  destruct (cell_of_event event) as [[col row]|e] eqn:He;
    [|by rewrite (onclick_no_cell _ _ e)].
  destruct (onclick_highlight self event col row He Hax Hrects) as [Hl Hax'].
  split; [done|..]; rewrite Hl;
    destruct (list_find _ _) as [[i rect]|] eqn:Hf.
  - rewrite Forall_forall in Hrects |- *. intros x Hx. apply Hrects.
    by eapply list_elem_of_delete_inv.
  - apply Forall_app. split; [done|]. apply Forall_singleton. by eexists _, _.
  - eapply sublist_NoDup; [exact Hcells|].
    apply fmap_sublist, sublist_delete.
  - rewrite fmap_app. apply NoDup_app. split; [done|]. split; [|apply NoDup_singleton].
    intros c Hc ->%list_elem_of_singleton.
    apply list_elem_of_fmap in Hc as (rect & Hcell & Hin).
    rewrite cell_of_on_axes in Hcell.
    rewrite list_find_None, Forall_forall in Hf. apply (Hf _ Hin).
    rewrite Forall_forall in Hrects.
    apply same_xy_cell; [by apply Hrects|].
    destruct (Hrects _ Hin) as (c' & r' & ->).
    rewrite cell_of_on_axes in Hcell. by simplify_eq.
Qed.

End Highlight.

(** ** Rendering and the highlight list *)

Section Rendering.

Lemma show_self self : (show self).1 = self.
Proof. unfold show. destruct (stats self); [|done]. by destruct (update_stats self). Qed.

(** [display] never assigns [highlight_rects]. *)
Lemma display_highlight_rects self clear :
  highlight_rects (display self clear).1 = highlight_rects self.
Proof.
  unfold display.
  destruct (np.shape (arr self)) as [|n [|cols [|? ?]]]; try done.
  - by rewrite show_self.
  - case_decide; [done|]. destruct (yticks self); [|done]. by rewrite show_self.
Qed.

(** [display] never unsets [ax]. *)
Lemma display_ax self clear :
  is_Some (ax self) → is_Some (ax (display self clear).1).
Proof.
  intros Hax. unfold display.
  destruct (np.shape (arr self)) as [|n [|cols [|? ?]]]; try done.
  - rewrite show_self. by eexists.
  - case_decide; [by eexists|]. destruct (yticks self); [|by eexists].
    rewrite show_self. by eexists.
Qed.

(** A new instance has no highlight and no axes. *)
Lemma init_fresh {A} (obj : np.pyobj A) stats xticks yticks self :
  __init__ obj stats xticks yticks = Ok self →
  highlight_rects self = [] ∧ ax self = None ∧ arr self = np.array obj.
Proof.
  unfold __init__. intros H.
  destruct (np.shape_of obj) as [shp|]; simpl in H; [|done].
  destruct (match xticks with Some l => Ok l | None => _ end) as [xt|];
    simpl in H; [|done].
  destruct (if decide (1 < length shp)%nat then _ else _) as [yt|];
    simpl in H; [|done].
  by simplify_eq.
Qed.

Lemma rendered_rendered_inv self : rendered self → rendered_inv self.
Proof.
  induction 1 as [obj st xt yt self clear Hinit Hax | self clear _ IH
                 | self event _ IH].
  - apply init_fresh in Hinit as (Hl & _ & _).
    split; [done|..]; rewrite display_highlight_rects, Hl; constructor.
  - destruct IH as [Hax Hrects Hcells].
    split; [by apply display_ax|..]; by rewrite display_highlight_rects.
  - by apply onclick_inv.
Qed.

(** Two clicks on one cell of an instance that satisfies the invariant. *)
Lemma toggle_twice self e1 e2 col row :
  rendered_inv self →
  cell_of_event e1 = Ok (col, row) →
  cell_of_event e2 = Ok (col, row) →
  highlight_rects (onclick (onclick self e1).1 e2).1 ≡ₚ highlight_rects self.
Proof.
  intros Hinv He1 He2.
  pose proof (onclick_inv self e1 Hinv) as Hinv1.
  destruct Hinv as [Hax Hrects Hcells].
  destruct (onclick_highlight self e1 col row He1 Hax Hrects) as [Hl1 _].
  destruct Hinv1 as [Hax1 Hrects1 _].
  destruct (onclick_highlight _ e2 col row He2 Hax1 Hrects1) as [Hl2 _].
  rewrite Hl2, Hl1. clear Hl2 Hrects1 Hax1.
  set (P := λ rect : Rectangle, same_xy (xy rect) (corner col row) = true) in *.
  set (l := highlight_rects self) in *.
  set (r := mark_added (new_rect col row)).
  destruct (list_find P l) as [[i rect]|] eqn:Hf.
  - apply list_find_Some in Hf as (Hi & HP & _).
    assert (rect = r) as ->.
    { apply same_xy_cell; [|done].
      rewrite Forall_lookup in Hrects. by eapply Hrects. }
    assert (list_find P (delete i l) = None) as ->.
    { apply list_find_None, Forall_forall. intros y Hy HPy.
      assert (y = r) as ->.
      { apply same_xy_cell; [|done]. rewrite Forall_forall in Hrects.
        by eapply Hrects, list_elem_of_delete_inv. }
      apply delete_Permutation in Hi.
      rewrite Hi in Hcells. rewrite fmap_cons in Hcells.
      apply NoDup_cons in Hcells as [Hnotin _]. apply Hnotin.
      by apply list_elem_of_fmap_2. }
    rewrite (delete_Permutation l i r Hi) at 2.
    by rewrite Permutation_app_comm.
  - assert (list_find P (l ++ [r]) = Some (length l, r)) as ->.
    { apply list_find_Some. split; [|split].
      - by rewrite lookup_app_r, Nat.sub_diag.
      - unfold P, r. simpl. by apply same_xy_corner.
      - intros j y Hj Hlt. rewrite lookup_app_l in Hj by done.
        apply list_find_None in Hf. rewrite Forall_lookup in Hf. by eapply Hf. }
    by rewrite delete_length_app.
Qed.

End Rendering.

(** C2. On an instance that has been rendered, two clicks that round to the
    same cell leave the highlight list a permutation of what it was, so the
    set of highlighted cells is the one before the two clicks. *)
Theorem onclick_twice_involution (self : t Q) (e1 e2 : MouseEvent) (col row : Z) :
  rendered self →
  cell_of_event e1 = Ok (col, row) →
  cell_of_event e2 = Ok (col, row) →
  highlight_rects (onclick (onclick self e1).1 e2).1 ≡ₚ highlight_rects self ∧
  HighlightSet (onclick (onclick self e1).1 e2).1 = HighlightSet self.
Proof.
  intros Hr He1 He2.
  pose proof (toggle_twice self e1 e2 col row (rendered_rendered_inv _ Hr) He1 He2)
    as Hperm.
  split; [done|]. unfold HighlightSet. by rewrite Hperm.
Qed.

(** ** Reading the highlighted cells *)

Section Reading.

Lemma index_Ok i d :
  index_ok d i →
  ∃ k, np.index i d = Ok k ∧ (k < d)%nat ∧
       Z.of_nat k = if decide (0 ≤ i) then i else i + Z.of_nat d.
Proof.
  unfold index_ok, np.index. intros Hi.
  destruct (decide (0 ≤ i < Z.of_nat d)) as [Hin|Hout].
  - exists (Z.to_nat i). rewrite decide_True by lia. split; [done|]. lia.
  - rewrite decide_True by lia. exists (Z.to_nat (i + Z.of_nat d)).
    rewrite decide_False by lia. split; [done|]. lia.
Qed.

Lemma index_Raise i d : ¬ index_ok d i → np.index i d = Raise IndexError.
Proof.
  unfold index_ok, np.index. intros Hi. by rewrite !decide_False by lia.
Qed.

Lemma index_exn i d e : np.index i d = Raise e → e = IndexError.
Proof. unfold np.index. repeat case_decide; congruence. Qed.

Lemma take_1_drop {A} (l : list A) k v :
  l !! k = Some v → take 1 (drop k l) = [v].
Proof.
  revert k. induction l as [|x l IH]; intros [|k] Hk; simplify_eq/=; [|eauto].
  by rewrite take_0.
Qed.

(** The element read for the cell of a rectangle depends on the array
    only. *)
Lemma highlighted_element_cell self col row :
  highlighted_element self (mark_added (new_rect col row))
  = if decide (length (np.shape (arr self)) = 1%nat)
    then np.getitem (arr self) col
    else np.getitem2 (arr self) row col.
Proof.
  unfold highlighted_element.
  change (xy (mark_added (new_rect col row))) with (corner col row).
  by rewrite int_corner_fst, int_corner_snd.
Qed.

Lemma highlighted_element_exn self rect e :
  highlighted_element self rect = Raise e → e = IndexError.
Proof.
  unfold highlighted_element, np.getitem, np.getitem2.
  case_decide.
  - destruct (np.shape (arr self)) as [|d rest]; [congruence|].
    destruct (np.index _ d) eqn:Hi; simpl; [done|].
    intros [= <-]. by eapply index_exn.
  - destruct (np.shape (arr self)) as [|d1 [|d2 rest]]; [congruence..|].
    destruct (np.index _ d1) eqn:H1; simpl.
    + destruct (np.index _ d2) eqn:H2; simpl; [done|].
      intros [= <-]. by eapply index_exn.
    + intros [= <-]. by eapply index_exn.
Qed.

(** A cell that is not readable raises. *)
Lemma highlighted_element_Raise self col row :
  ¬ readable (np.shape (arr self)) col row →
  highlighted_element self (mark_added (new_rect col row)) = Raise IndexError.
Proof.
  rewrite highlighted_element_cell. unfold readable, np.getitem, np.getitem2.
  destruct (np.shape (arr self)) as [|d1 [|d2 rest]]; simpl; intros Hr.
  - done.
  - rewrite index_Raise by done. reflexivity.
  - destruct (decide (- Z.of_nat d1 ≤ row < Z.of_nat d1)) as [H1|H1];
      [|rewrite (index_Raise row d1) by exact H1; reflexivity].
    destruct (index_Ok _ _ H1) as (k1 & -> & _). simpl.
    rewrite (index_Raise col d2); [reflexivity|]. unfold index_ok in *. tauto.
Qed.

(** A readable cell of an array of rank 1 or 2 is one value of the
    buffer. *)
Lemma highlighted_element_Ok self col row :
  np.wf (arr self) →
  (length (np.shape (arr self)) ≤ 2)%nat →
  readable (np.shape (arr self)) col row →
  ∃ v, highlighted_element self (mark_added (new_rect col row))
       = Ok {| np.shape := []; np.data := [v] |}.
Proof.
  rewrite highlighted_element_cell.
  unfold np.wf, readable, np.getitem, np.getitem2, np.block.
  destruct (np.shape (arr self)) as [|d1 [|d2 [|? ?]]]; simpl;
    intros Hwf Hrank Hr; [done| | |lia].
  - destruct (index_Ok _ _ Hr) as (k & -> & Hk & _). simpl.
    destruct (lookup_lt_is_Some_2 (np.data (arr self)) k) as [v Hv]; [lia|].
    exists v. rewrite Nat.mul_1_r. by rewrite (take_1_drop _ _ v).
  - destruct Hr as [H1 H2].
    destruct (index_Ok _ _ H1) as (k1 & -> & Hk1 & _).
    destruct (index_Ok _ _ H2) as (k2 & -> & Hk2 & _). simpl.
    destruct (lookup_lt_is_Some_2 (np.data (arr self)) (k1 * d2 + k2))
      as [v Hv]; [nia|].
    exists v. rewrite Nat.mul_1_r. by rewrite (take_1_drop _ _ v).
Qed.

End Reading.

(** ** The statistics *)

Section Statistics.

Lemma wrapped_1d_init : __init__ (np.NdArray sample_1d) false None None = Ok wrapped_1d.
Proof. reflexivity. Qed.

Lemma wrapped_2x3_init : __init__ (np.NdArray sample_2x3) false None None = Ok wrapped_2x3.
Proof. reflexivity. Qed.

Lemma mapM_result_app {A B} (f : A → result B) (l1 l2 : list A) :
  mapM f (l1 ++ l2) = xs ← mapM f l1; ys ← mapM f l2; Ok (xs ++ ys).
Proof.
  induction l1 as [|x l1 IH]; simpl.
  - by destruct (mapM f l2).
  - destruct (f x) as [y|e]; simpl; [|done]. rewrite IH.
    destruct (mapM f l1) as [xs|e]; simpl; [|done].
    by destruct (mapM f l2).
Qed.

Lemma mapM_result_ext {A B} (f g : A → result B) (l : list A) :
  (∀ x, f x = g x) → mapM f l = mapM g l.
Proof. intros Hfg. induction l as [|x l IH]; simpl; [done|]. by rewrite Hfg, IH. Qed.

Lemma mapM_result_exn {A B} (f : A → result B) (l : list A) e0 e :
  (∀ x e', f x = Raise e' → e' = e0) → mapM f l = Raise e → e = e0.
Proof.
  intros Hf. induction l as [|x l IH]; simpl; [done|].
  destruct (f x) as [y|e'] eqn:Hx; simpl.
  - destruct (mapM f l) as [ys|e']; simpl; [done|]. intros [= <-]. by apply IH.
  - intros [= <-]. by eapply Hf.
Qed.

(** [update_stats] reads the array and the highlight list only. *)
Lemma update_stats_ext self self' :
  arr self = arr self' → highlight_rects self = highlight_rects self' →
  update_stats self = update_stats self'.
Proof.
  unfold update_stats. intros Ha <-.
  rewrite (mapM_result_ext (highlighted_element self) (highlighted_element self'));
    [done|].
  intros rect. unfold highlighted_element. by rewrite Ha.
Qed.

Lemma update_stats_snoc_Raise self l rect :
  highlight_rects self = l ++ [rect] →
  highlighted_element self rect = Raise IndexError →
  update_stats self = Raise IndexError.
Proof.
  unfold update_stats. intros -> Hr. rewrite mapM_result_app.
  destruct (mapM _ l) as [xs|e] eqn:Hl; simpl.
  - by rewrite Hr.
  - f_equal. eapply mapM_result_exn; [|exact Hl].
    intros x e'. apply highlighted_element_exn.
Qed.

Lemma update_stats_snoc_Ok self l rect elems v :
  highlight_rects self = l ++ [rect] →
  mapM (highlighted_element self) l = Ok elems →
  highlighted_element self rect = Ok {| np.shape := []; np.data := [v] |} →
  ∃ s, update_stats self = Ok (StatsTitle s).
Proof.
  unfold update_stats. intros -> Hl Hr. rewrite mapM_result_app, Hl. simpl.
  rewrite Hr. simpl.
  destruct (elems ++ [_]) as [|e0 es] eqn:Happ.
  { by destruct elems. }
  rewrite <- Happ. rewrite bind_app. simpl.
  destruct (elems ≫= np.data) as [|x xs]; simpl; by eexists.
Qed.

Lemma update_stats_Ok_elements self t0 :
  update_stats self = Ok t0 →
  ∃ elems, mapM (highlighted_element self) (highlight_rects self) = Ok elems.
Proof.
  unfold update_stats. destruct (mapM _ _) as [elems|e]; [by eexists|done].
Qed.




End Statistics.

Section SingleCell.


End SingleCell.



(** ** Clicks outside the array *)

Section OutOfRange.

Lemma not_highlighted_find self col row :
  rendered_inv self →
  (col, row) ∉ HighlightSet self →
  list_find (λ rect, same_xy (xy rect) (corner col row) = true)
    (highlight_rects self) = None.
Proof.
  intros [_ Hrects _] Hnot. apply list_find_None, Forall_forall.
  intros rect Hin HP. apply Hnot. unfold HighlightSet.
  apply elem_of_list_to_set, list_elem_of_fmap. exists rect. split; [|done].
  rewrite Forall_forall in Hrects.
  apply same_xy_cell in HP; [|by apply Hrects].
  subst rect. by rewrite cell_of_on_axes.
Qed.

(** What a click on a cell that is not highlighted does. *)
Lemma onclick_append self event col row a :
  cell_of_event event = Ok (col, row) →
  ax self = Some a →
  list_find (λ rect, same_xy (xy rect) (corner col row) = true)
    (highlight_rects self) = None →
  onclick self event
  = (let rect := mark_added (new_rect col row) in
     let self' :=
       set_ax (Some (add_patch rect a))
         (set_highlight_rects (highlight_rects self ++ [rect]) self) in
     (self', update_stats self')).
Proof. intros He Ha Hf. unfold onclick. by rewrite He, Hf, Ha. Qed.

Lemma index_wrap (n : nat) (i : Z) :
  - Z.of_nat n ≤ i < 0 → np.index i n = np.index (i + Z.of_nat n) n.
Proof.
  intros Hi. unfold np.index.
  rewrite (decide_False (P := 0 ≤ i < Z.of_nat n)) by lia.
  rewrite (decide_True (P := - Z.of_nat n ≤ i < 0)) by lia.
  by rewrite (decide_True (P := 0 ≤ i + Z.of_nat n < Z.of_nat n)) by lia.
Qed.

End OutOfRange.

(** C8, as stated, fails.  On the rendered array [10, 20, 30] a click on
    column -1 raises nothing and the title shows the value 30 of the last
    cell; a click on column 5 raises [IndexError], but only after the
    rectangle of column 5 has been put in the highlight list. *)
Lemma onclick_out_of_range_silent :
  let self := (display wrapped_1d true).1 in
  (∃ s, (onclick self (click (-1) 0)).2 = Ok (StatsTitle s) ∧ min_val s = 30%Q) ∧
  (onclick self (click 5 0)).2 = Raise IndexError ∧
  highlight_rects (onclick self (click 5 0)).1 = [mark_added (new_rect 5 0)].
Proof.
  split; [|split; reflexivity].
  eexists. split; reflexivity.
Qed.

(** C8, amended.  A click on a cell that is not highlighted first appends
    the rectangle of the cell to the highlight list, whatever the cell.  The
    statistics then raise [IndexError] when the cell is outside numpy's index
    range [-len <= i < len], and the rectangle stays in the list.  A cell
    inside that range raises nothing, also when an index is negative: on a
    rank-1 array the column [col] with [-len <= col < 0] reads the cell
    [col + len]. *)
Theorem onclick_out_of_range (self : t Q) (event : MouseEvent) (col row : Z) :
  rendered self →
  cell_of_event event = Ok (col, row) →
  (col, row) ∉ HighlightSet self →
  highlight_rects (onclick self event).1
  = highlight_rects self ++ [mark_added (new_rect col row)] ∧
  (¬ readable (np.shape (arr self)) col row →
   (onclick self event).2 = Raise IndexError) ∧
  (readable (np.shape (arr self)) col row →
   np.wf (arr self) → (length (np.shape (arr self)) ≤ 2)%nat →
   (∃ t0, update_stats self = Ok t0) →
   ∃ s, (onclick self event).2 = Ok (StatsTitle s)) ∧
  (∀ n : nat, np.shape (arr self) = [n] → - Z.of_nat n ≤ col < 0 →
   highlighted_element self (mark_added (new_rect col row))
   = highlighted_element self (mark_added (new_rect (col + Z.of_nat n) row))).
Proof.
  intros Hr He Hnot.
  pose proof (rendered_rendered_inv _ Hr) as Hinv.
  pose proof (not_highlighted_find self col row Hinv Hnot) as Hf.
  destruct (inv_ax _ Hinv) as [a Ha].
  rewrite (onclick_append self event col row a He Ha Hf). cbv zeta.
  set (rect := mark_added (new_rect col row)).
  set (self' := set_ax _ _).
  assert (∀ r, highlighted_element self' r = highlighted_element self r)
    as Hsame by done.
  split; [done|]. split; [|split].
  - intros Hout. simpl.
    apply (update_stats_snoc_Raise self' (highlight_rects self) rect); [done|].
    rewrite Hsame. by apply highlighted_element_Raise.
  - intros Hin Hwf Hrank [t0 Ht0]. simpl.
    destruct (update_stats_Ok_elements _ _ Ht0) as [elems Helems].
    destruct (highlighted_element_Ok self col row Hwf Hrank Hin) as [v Hv].
    apply (update_stats_snoc_Ok self' (highlight_rects self) rect elems v);
      [done| |by rewrite Hsame].
    by rewrite (mapM_result_ext _ (highlighted_element self)).
  - intros n Hn Hcol. unfold rect. rewrite !highlighted_element_cell.
    rewrite Hn. simpl. unfold np.getitem. rewrite Hn.
    by rewrite index_wrap.
Qed.

Lemma onclick_out_of_range_witness :
  rendered ((display wrapped_1d true).1) ∧
  cell_of_event (click (-1) 0) = Ok (-1, 0) ∧
  ((-1, 0) ∉ HighlightSet ((display wrapped_1d true).1)) ∧
  highlight_rects (onclick (display wrapped_1d true).1 (click (-1) 0)).1
  = highlight_rects (display wrapped_1d true).1 ++ [mark_added (new_rect (-1) 0)].
Proof.
  assert (rendered (display wrapped_1d true).1) as Hr.
  { apply (rendered_first _ _ _ _ _ _ wrapped_1d_init). by eexists. }
  assert ((-1, 0) ∉ HighlightSet (display wrapped_1d true).1) as Hnot.
  { apply not_elem_of_empty. }
  split; [exact Hr|]. split; [reflexivity|]. split; [exact Hnot|].
  apply (onclick_out_of_range (display wrapped_1d true).1 (click (-1) 0) (-1) 0
           Hr eq_refl Hnot).
Defined.

Lemma onclick_twice_involution_witness :
  rendered ((display wrapped_1d true).1) ∧
  cell_of_event (click (9 # 10) (1 # 10)) = Ok (1, 0) ∧
  cell_of_event (click (6 # 5) (-1 # 5)) = Ok (1, 0) ∧
  highlight_rects
    (onclick (onclick (display wrapped_1d true).1 (click (9 # 10) (1 # 10))).1
       (click (6 # 5) (-1 # 5))).1
  ≡ₚ highlight_rects (display wrapped_1d true).1 ∧
  HighlightSet
    (onclick (onclick (display wrapped_1d true).1 (click (9 # 10) (1 # 10))).1
       (click (6 # 5) (-1 # 5))).1
  = HighlightSet (display wrapped_1d true).1.
Proof.
  assert (rendered (display wrapped_1d true).1) as Hr.
  { apply (rendered_first _ _ _ _ _ _ wrapped_1d_init). by eexists. }
  split; [exact Hr|]. split; [reflexivity|]. split; [reflexivity|].
  apply (onclick_twice_involution (display wrapped_1d true).1
           (click (9 # 10) (1 # 10)) (click (6 # 5) (-1 # 5)) 1 0 Hr);
    reflexivity.
Defined.

(** ** The life of the highlight list *)

(** C7, as stated, fails.  Render [10, 20, 30], click the cell of column 1,
    render again: the highlight list still holds the rectangle of that
    cell. *)
Lemma display_keeps_highlight :
  let w1 := (display wrapped_1d true).1 in
  let w2 := (onclick w1 (click 1 0)).1 in
  highlight_rects (display w2 true).1 = [mark_added (new_rect 1 0)] ∧
  highlight_rects (display w2 true).1 ≠ [].
Proof. split; [reflexivity | discriminate]. Qed.

(** C7, amended.  The highlight list is empty in a new instance; [display]
    and [__repr__], which calls it, leave the list as it is, at the first
    render and at every later one; a click on a cell of a rendered instance
    changes it. *)
Theorem highlight_lifecycle (obj : np.pyobj Q) (stats : bool)
    (xticks yticks : option (list label)) (self : t Q) (clear : bool) :
  match __init__ obj stats xticks yticks with
  | Ok w => highlight_rects w = []
  | Raise _ => True
  end ∧
  highlight_rects (display self clear).1 = highlight_rects self ∧
  highlight_rects (__repr__ self).1 = highlight_rects self ∧
  (∀ event c,
     rendered self → cell_of_event event = Ok c →
     highlight_rects (onclick self event).1 ≠ highlight_rects self).
Proof.
  split; [|split; [|split]].
  - destruct (__init__ obj stats xticks yticks) as [w|e] eqn:Hinit; [|done].
    by apply init_fresh in Hinit as (? & _).
  - apply display_highlight_rects.
  - rewrite <- (display_highlight_rects self true). unfold __repr__.
    by destruct (display self true).
  - intros event [col row] Hr He.
    destruct (rendered_rendered_inv _ Hr) as [Hax Hrects _].
    destruct (onclick_highlight self event col row He Hax Hrects) as [-> _].
    intros Heq. apply (f_equal length) in Heq.
    destruct (list_find _ _) as [[i rect]|] eqn:Hf.
    + apply list_find_Some in Hf as (Hi & _).
      rewrite length_delete in Heq by eauto.
      apply lookup_lt_Some in Hi. lia.
    + rewrite length_app in Heq. simpl in Heq. lia.
Qed.

(** ** Construction, reduction and labels *)

Section Construction.

(** [__init__] on an array with at least one axis, with default labels. *)
Lemma init_array {A} (d : nat) (rest : list nat) (buf : list A) (stats : bool) :
  ∃ w, __init__ (np.NdArray {| np.shape := d :: rest; np.data := buf |})
         stats None None = Ok w ∧
       arr w = {| np.shape := d :: rest; np.data := buf |} ∧
       highlight_rects w = [] ∧ ax w = None ∧
       xticks w = IntLabel <$> np.arange d.
Proof.
  unfold __init__. simpl.
  destruct rest as [|d2 rest]; simpl; by eexists.
Qed.

(** [__init__] on a numpy scalar, with default labels. *)
Lemma init_scalar {A} (buf : list A) (stats : bool) yticks :
  __init__ (np.NdArray {| np.shape := []; np.data := buf |}) stats None yticks
  = Raise IndexError.
Proof. reflexivity. Qed.

(** The full reduction raises, whatever the array. *)
Lemma sum_None self : InteractiveArray.sum self None = Raise IndexError.
Proof. reflexivity. Qed.

(** So does the reduction of a rank-1 array along its only axis. *)
Lemma sum_rank_1 self n :
  np.shape (arr self) = [n] → InteractiveArray.sum self (Some 0) = Raise IndexError.
Proof.
  intros Hn. unfold InteractiveArray.sum, np.sum, np.axis_index. rewrite Hn.
  simpl. unfold __init__, np.sum_axis. simpl. rewrite Hn. reflexivity.
Qed.

(** The default labels of a rank-2 array: as many x labels as rows, as
    many y labels as columns. *)
Lemma init_rank_2_labels (rows cols : nat) (buf : list Q) (stats : bool) :
  ∃ w, __init__ (np.NdArray {| np.shape := [rows; cols]; np.data := buf |})
         stats None None = Ok w ∧
       xticks w = IntLabel <$> np.arange rows ∧
       yticks w = Some (IntLabel <$> np.arange cols).
Proof. by eexists. Qed.

End Construction.

(** C6: the code does not do what the claim says.  [sum()] with the default
    [axis=None] raises [IndexError] on every instance, here on
    [10, 20, 30]: [np.sum] returns a scalar, whose shape [()] has no first
    entry for [__init__] to read.  The reduction of a rank-1 array along
    axis 0 raises in the same way; the reduction of the 2 x 3 sample along
    axis 0 returns the wrapped column sums. *)
Theorem sum_full_reduction_raises :
  InteractiveArray.sum wrapped_1d None = Raise IndexError ∧
  (∀ self, InteractiveArray.sum self None = Raise IndexError) ∧
  InteractiveArray.sum wrapped_1d (Some 0) = Raise IndexError ∧
  (arr <$> InteractiveArray.sum wrapped_2x3 (Some 0))
  = Ok {| np.shape := [3%nat];
          np.data := [1 + (4 + 0); 2 + (5 + 0); 3 + (6 + 0)]%Q |}.
Proof.
  split; [reflexivity|]. split; [apply sum_None|].
  split; reflexivity.
Qed.

(** C9: the code does not do what the claim says.  For the 2 x 3 sample the
    default x labels are [0, 1], one per row, and the default y labels
    [0, 1, 2], one per column; [display] puts the x ticks at [0, 1] although
    the cell texts run over the columns x = 0, 1, 2, and the y ticks at
    [0, 1, 2] although the rows are y = 0, 1. *)
Theorem default_labels_swapped :
  xticks wrapped_2x3 = [IntLabel 0; IntLabel 1] ∧
  yticks wrapped_2x3 = Some [IntLabel 0; IntLabel 1; IntLabel 2] ∧
  ∃ a, ax (display wrapped_2x3 true).1 = Some a ∧
       (texts a).*1 = [(0, 0); (1, 0); (2, 0); (0, 1); (1, 1); (2, 1)] ∧
       xtick_locs a = [0; 1] ∧
       xticklabels a = [IntLabel 0; IntLabel 1] ∧
       ytick_locs a = [0; 1; 2] ∧
       yticklabels a = [IntLabel 0; IntLabel 1; IntLabel 2].
Proof.
  split; [reflexivity|]. split; [reflexivity|].
  eexists. split; [reflexivity|]. repeat split; reflexivity.
Qed.

(** C10. Constructing the wrapper from a Python list or a Python number
    raises [AttributeError], whatever the other arguments, although
    [np.array] converts the list to a rank-1 buffer; from an array with at
    least one axis the construction succeeds. *)
Theorem init_needs_shape (l : list Q) (x : Q) (stats : bool)
    (xticks yticks : option (list label)) (d : nat) (rest : list nat)
    (buf : list Q) :
  __init__ (np.PyList l) stats xticks yticks = Raise AttributeError ∧
  __init__ (np.PyNumber x) stats xticks yticks = Raise AttributeError ∧
  np.array (np.PyList l) = {| np.shape := [length l]; np.data := l |} ∧
  ∃ w, __init__ (np.NdArray {| np.shape := d :: rest; np.data := buf |})
         stats None None = Ok w ∧
       arr w = {| np.shape := d :: rest; np.data := buf |}.
Proof.
  split; [reflexivity|]. split; [reflexivity|]. split; [reflexivity|].
  destruct (init_array d rest buf stats) as (w & Hw & Harr & _).
  by exists w.
Qed.

(** ** The operators *)

Section OperatorFacts.
Context {A : Type} (equal : A → A → bool).

(** [!=] never returns an instance: it is [False] whenever [==] returns. *)
Lemma ne_False (self : t A) (other : operand A) :
  __ne__ equal self other = (__eq__ equal self other ≫= λ _, Ok false).
Proof. reflexivity. Qed.

End OperatorFacts.

(** C4: the code does not do what the claim says for [!=].  The class has
    no [__ne__]; Python's default negates the truth value of the instance
    that [==] returns, which is true.  For [10, 20, 30] and [10, 21, 30],
    [==] returns the wrapped elementwise result [True, False, True] and [!=]
    returns [False], not the wrapped [False, True, False]. *)
Theorem ne_not_elementwise :
  (arr <$> __eq__ Qeq_bool wrapped_1d (Wrapped wrapped_1d_other))
  = Ok {| np.shape := [3%nat]; np.data := [true; false; true] |} ∧
  __ne__ Qeq_bool wrapped_1d (Wrapped wrapped_1d_other) = Ok false.
Proof. split; reflexivity. Qed.

(** ** Elementwise operations on equal shapes *)

Section SameShape.
Context {A B C : Type}.

Lemma bind_ext_in {X Y} (f g : X → list Y) (l : list X) :
  (∀ x, x ∈ l → f x = g x) → l ≫= f = l ≫= g.
Proof.
  induction l as [|x l IH]; intros Hfg; [done|].
  rewrite !bind_cons. rewrite Hfg by left. rewrite IH; [done|].
  intros y Hy. apply Hfg. by right.
Qed.

(** Cutting a buffer into [s] chunks of length [k] and joining them. *)
Lemma chunks_join {X} (k s : nat) (d : list X) :
  length d = (s * k)%nat →
  seq 0 s ≫= (λ i, take k (drop (i * k) d)) = d.
Proof.
  revert d. induction s as [|s IH]; intros d Hd.
  - simpl in *. by destruct d.
  - rewrite <- cons_seq, bind_cons. simpl. rewrite drop_0.
    rewrite <- fmap_S_seq, list_fmap_bind.
    rewrite (bind_ext_in _ (λ i, take k (drop (i * k) (drop k d)))).
    + rewrite IH; [apply take_drop|]. rewrite length_drop. lia.
    + intros i _. simpl. rewrite drop_drop. by do 2 f_equal.
Qed.

Lemma expand_same {X} (shp : list nat) (d : list X) :
  length d = np.size shp → np.expand shp shp d = d.
Proof.
  revert d. induction shp as [|s shp IH]; intros d Hd; [done|].
  simpl in *. rewrite decide_True by done.
  rewrite (bind_ext_in _ (λ i, take (np.size shp) (drop (i * np.size shp) d))).
  - by apply chunks_join.
  - intros i Hi. apply elem_of_seq in Hi. apply IH.
    rewrite length_take, length_drop. nia.
Qed.

Lemma broadcast_rev_same r : np.broadcast_rev r r = Ok r.
Proof.
  induction r as [|d r IH]; simpl; [done|].
  rewrite IH. simpl. by rewrite decide_True.
Qed.

(** On arrays of one shape the result has that shape and holds the
    elementwise results. *)
Lemma binary_same_shape (f : A → B → C) (a : np.ndarray A) (b : np.ndarray B) :
  np.shape a = np.shape b → np.wf a → np.wf b →
  np.binary f a b
  = Ok {| np.shape := np.shape a;
          np.data := zip_with f (np.data a) (np.data b) |}.
Proof.
  unfold np.wf, np.binary, np.broadcast_shapes, np.broadcast_to.
  intros Hs Ha Hb. rewrite <- Hs, broadcast_rev_same. simpl.
  rewrite reverse_involutive, Nat.sub_diag. simpl.
  rewrite <- Hs in Hb. rewrite Hs at 4. rewrite <- Hs.
  by rewrite !expand_same.
Qed.

(** An operator on two instances of one shape: a new instance with the
    elementwise results, no highlight, no axes and default labels. *)
Lemma binary_op_same_shape (op : A → B → C) (self : t A) (other : t B) d rest :
  np.shape (arr self) = d :: rest →
  np.shape (arr other) = d :: rest →
  np.wf (arr self) → np.wf (arr other) →
  ∃ w, binary_op op self (Wrapped other) = Ok w ∧
       arr w = {| np.shape := d :: rest;
                  np.data := zip_with op (np.data (arr self))
                               (np.data (arr other)) |} ∧
       highlight_rects w = [] ∧ ax w = None ∧
       xticks w = IntLabel <$> np.arange d.
Proof.
  intros Hs Ho Hws Hwo. unfold binary_op.
  rewrite binary_same_shape by (done || congruence). simpl. rewrite Hs.
  apply init_array.
Qed.

End SameShape.

Example np_broadcast_scalar :
  np.binary Z.add {| np.shape := [2; 3]%nat; np.data := [1; 2; 3; 4; 5; 6] |}
                  (np.array (np.PyNumber 10))
  = Ok {| np.shape := [2; 3]%nat; np.data := [11; 12; 13; 14; 15; 16] |}.
Proof. vm_compute. reflexivity. Qed.

(** * Further properties *)

(** ** The call tree as a relation *)

Section TreeRelationFacts.

Lemma node_label_inj v v' : node_label v = node_label v' → v = v'.
Proof.
  unfold node_label. intros [= Heq].
  apply (paren_split (pretty v) _ (pretty v')) in Heq as [Hv _];
    try apply pretty_Z_paren_free.
  by apply (inj pretty).
Qed.

(** A run of the builder is a derivation of [builds]. *)
Lemma run_builds depth : ∀ n parent g c g' c',
  draw_fib_tree_internal depth n parent (Some g) (Some c) = Some (g', c') →
  builds n parent g c g' c'.
Proof.
  induction depth as [|depth IH]; intros n parent g c g' c'; [done|].
  rewrite internal_unfold. case_decide as Hn.
  - intros [= <- <-]. by constructor.
  - destruct (draw_fib_tree_internal depth (n - 1) _ _ _) as [[g1 c1]|] eqn:H1;
      [|done].
    intros H2. eapply builds_node; [lia| |]; eauto.
Qed.

(** The builder returns for every [n], at recursion depth [max 1 n]. *)
Lemma draw_fib_tree_builds n :
  ∃ G c,
    (∀ depth, Z.max 1 n ≤ Z.of_nat depth → draw_fib_tree depth n = Some G) ∧
    builds n None (new "FibonacciTree") ∅ G c.
Proof.
  destruct (internal_spec (Z.to_nat (Z.max 1 n)) n None (new "FibonacciTree") ∅)
    as (G & c & nw & Hrun & _); [apply empty_inv | done | lia | lia |].
  exists G, c. split.
  - intros depth Hd. unfold draw_fib_tree.
    assert (draw_fib_tree_internal depth n None None None = Some (G, c)) as ->;
      [|done].
    apply (internal_mono_le (Z.to_nat (Z.max 1 n))); [lia|].
    rewrite <- Hrun. by destruct (Z.to_nat (Z.max 1 n)).
  - by eapply run_builds.
Qed.

Lemma entered_edges n parent g c :
  edges (entered n parent g c)
  = edges g ++ match parent with
               | Some p => [(p, node_name n (get c n))]
               | None => []
               end.
Proof. unfold entered. destruct parent; simpl; by rewrite ?app_nil_r. Qed.

Lemma filter_fst_notin (es : list (string * string)) (S : list string) x :
  Forall (λ e, e.1 ∈ S) es → x ∉ S → filter (λ e, e.1 = x) es = [].
Proof.
  induction 1 as [|e es He _ IH]; intros Hx; [done|].
  rewrite filter_cons. case_decide as Heq; [|by apply IH]. by subst x.
Qed.

Lemma filter_snd_notin (es : list (string * string)) (S : list string) x :
  Forall (λ e, e.2 ∈ S) es → x ∉ S → filter (λ e, e.2 = x) es = [].
Proof.
  induction 1 as [|e es He _ IH]; intros Hx; [done|].
  rewrite filter_cons. case_decide as Heq; [|by apply IH]. by subst x.
Qed.

End TreeRelationFacts.

Section TreeShape.

(** Membership in a list built with [::] and [++]. *)
Ltac mem :=
  rewrite ?elem_of_cons, ?elem_of_app, ?elem_of_cons in *; intuition congruence.

Lemma kids_ext es es' x v :
  filter (λ e, e.1 = x) es = filter (λ e, e.1 = x) es' →
  kids es' x v → kids es x v.
Proof. unfold kids. by intros ->. Qed.

Lemma call_shape_weaken es es' n n' nd :
  (0 ≤ n' → 0 ≤ n ∧ n ≤ n') →
  filter (λ e, e.1 = nd.1) es' = filter (λ e, e.1 = nd.1) es →
  call_shape es n nd → call_shape es' n' nd.
Proof.
  intros Hn Hf (v & k & -> & Hv & Hk). exists v, k. split; [done|].
  split; [lia|]. by eapply kids_ext.
Qed.

(** The edges of the two subtrees, seen from one node. *)
Lemma filter_fst_join (root r1 r2 x : string) (es1 es2 : list (string * string)) :
  filter (λ e, e.1 = x) ((root, r1) :: es1 ++ (root, r2) :: es2)
  = (if decide (root = x) then [(root, r1)] else [])
    ++ filter (λ e, e.1 = x) es1
    ++ (if decide (root = x) then [(root, r2)] else [])
    ++ filter (λ e, e.1 = x) es2.
Proof.
  rewrite filter_cons, filter_app, filter_cons. simpl.
  by repeat case_decide.
Qed.

Lemma filter_snd_join (root r1 r2 x : string) (es1 es2 : list (string * string)) :
  length (filter (λ e, e.2 = x) ((root, r1) :: es1 ++ (root, r2) :: es2))
  = ((if decide (r1 = x) then 1 else 0)
     + length (filter (λ e, e.2 = x) es1)
     + (if decide (r2 = x) then 1 else 0)
     + length (filter (λ e, e.2 = x) es2))%nat.
Proof.
  rewrite filter_cons, filter_app, filter_cons. simpl.
  repeat case_decide; simpl; rewrite ?length_app; simpl; lia.
Qed.

Lemma builds_shape n parent g c g' c' :
  builds n parent g c g' c' →
  graph_inv g c →
  (∀ p, parent = Some p → p ∈ names g) →
  graph_inv g' c' ∧
  ∃ rest es,
    nodes g' = nodes g ++ (node_name n (get c n), node_label n) :: rest ∧
    edges g' = edges g ++ parent_edge parent (node_name n (get c n)) ++ es ∧
    tree_shape n (node_name n (get c n)) rest es.
Proof.
  induction 1 as [n parent g c Hn
                 | n parent g c g1 c1 g2 c2 Hn _ IH1 _ IH2];
    intros Hinv Hp.
  - split; [by apply entered_inv|]. exists [], [].
    split; [apply entered_nodes|].
    split; [by rewrite entered_edges, app_nil_r|].
    split; simpl; [done | constructor | by intros x []%elem_of_nil |].
    apply Forall_singleton. exists n, (get c n).
    split; [done|]. split; [lia|]. unfold kids. by rewrite decide_True.
  - set (root := node_name n (get c n)) in *.
    set (g0 := entered n parent g c) in *.
    set (c0 := <[n := get c n + 1]> c) in *.
    assert (root ∈ names g0) as Hroot0.
    { unfold g0. rewrite entered_names. apply elem_of_app. right.
      by apply list_elem_of_singleton. }
    destruct IH1 as (Hinv1 & rest1 & es1 & Hn1 & He1 & [Hl1 Hends1 Hin1 Hk1]);
      [by apply entered_inv | by intros p [= <-] |].
    set (r1 := node_name (n - 1) (get c0 (n - 1))) in *.
    assert (names g1 = names g0 ++ r1 :: rest1.*1) as Hnames1.
    { unfold names. by rewrite Hn1, fmap_app. }
    destruct IH2 as (Hinv2 & rest2 & es2 & Hn2 & He2 & [Hl2 Hends2 Hin2 Hk2]);
      [done | intros p [= <-]; rewrite Hnames1; apply elem_of_app; by left |].
    set (r2 := node_name (n - 2) (get c1 (n - 2))) in *.
    split; [done|].
    exists ((r1, node_label (n - 1)) :: rest1 ++ (r2, node_label (n - 2)) :: rest2),
           ((root, r1) :: es1 ++ (root, r2) :: es2).
    assert (names g2 = names g ++ root :: (r1 :: rest1.*1) ++ (r2 :: rest2.*1))
      as Hnames2.
    { unfold names. rewrite Hn2, Hn1. unfold g0. rewrite entered_nodes.
      rewrite !fmap_app, !fmap_cons, <- !app_assoc. done. }
    pose proof (inv_nodup _ _ Hinv2) as Hnd. rewrite Hnames2 in Hnd.
    apply NoDup_app in Hnd as (_ & _ & Hnd).
    apply NoDup_cons in Hnd as [Hroot Hnd].
    apply NoDup_app in Hnd as (HN1 & Hdisj & HN2).
    apply NoDup_cons in HN1 as [Hr1 HN1].
    apply NoDup_cons in HN2 as [Hr2 HN2].
    assert (root ∉ r1 :: rest1.*1) as Hroot1.
    { intros Hx. apply Hroot. apply elem_of_app. by left. }
    assert (root ∉ r2 :: rest2.*1) as Hroot2.
    { intros Hx. apply Hroot. apply elem_of_app. by right. }
    assert (Forall (λ e : string * string, e.1 ∈ r1 :: rest1.*1) es1) as Ht1.
    { eapply Forall_impl; [exact Hends1|]. by intros e [? _]. }
    assert (Forall (λ e : string * string, e.1 ∈ r2 :: rest2.*1) es2) as Ht2.
    { eapply Forall_impl; [exact Hends2|]. by intros e [? _]. }
    assert (Forall (λ e : string * string, e.2 ∈ rest1.*1) es1) as Hh1.
    { eapply Forall_impl; [exact Hends1|]. by intros e [_ ?]. }
    assert (Forall (λ e : string * string, e.2 ∈ rest2.*1) es2) as Hh2.
    { eapply Forall_impl; [exact Hends2|]. by intros e [_ ?]. }
    split.
    { rewrite Hn2, Hn1. unfold g0. rewrite entered_nodes.
      rewrite <- !app_assoc. done. }
    split.
    { rewrite He2, He1. unfold g0. rewrite entered_edges.
      rewrite <- !app_assoc. done. }
    split.
    + simpl. rewrite !length_app. simpl. lia.
    + rewrite fmap_cons, fmap_app, fmap_cons. simpl.
      apply Forall_cons. split; [simpl; mem|].
      apply Forall_app. split.
      { eapply Forall_impl; [exact Hends1|]. intros e [Ha Hb]. mem. }
      apply Forall_cons. split; [simpl; mem|].
      eapply Forall_impl; [exact Hends2|]. intros e [Ha Hb]. mem.
    + intros x Hx. rewrite filter_snd_join.
      rewrite fmap_cons, fmap_app, fmap_cons in Hx. simpl in Hx.
      assert (length (filter (λ e, e.2 = x) es1)
              = if decide (x ∈ rest1.*1) then 1 else 0)%nat as ->.
      { case_decide; [by apply Hin1|].
        by rewrite (filter_snd_notin es1 (rest1.*1)). }
      assert (length (filter (λ e, e.2 = x) es2)
              = if decide (x ∈ rest2.*1) then 1 else 0)%nat as ->.
      { case_decide; [by apply Hin2|].
        by rewrite (filter_snd_notin es2 (rest2.*1)). }
      pose proof (Hdisj x) as Hdx. pose proof (Hdisj r1) as Hd1.
      clearbody r1 r2 root. clear Hdisj.
      repeat case_decide; try done; exfalso; subst; mem.
    + apply Forall_cons. split.
      { exists n, (get c n). split; [done|]. split; [lia|].
        unfold kids. rewrite decide_False by lia.
        exists (get c0 (n - 1)), (get c1 (n - 2)).
        fold root. rewrite filter_fst_join. rewrite !decide_True by done.
        rewrite (filter_fst_notin es1 (r1 :: rest1.*1)) by done.
        by rewrite (filter_fst_notin es2 (r2 :: rest2.*1)) by done. }
      change ((r1, node_label (n - 1)) :: rest1 ++ (r2, node_label (n - 2)) :: rest2)
        with (((r1, node_label (n - 1)) :: rest1)
                ++ (r2, node_label (n - 2)) :: rest2).
      apply Forall_app. split.
      * rewrite Forall_forall in Hk1 |- *. intros nd Hnd.
        apply (call_shape_weaken es1 _ (n - 1)); [lia| |by apply Hk1].
        assert (nd.1 ∈ r1 :: rest1.*1) as Hin.
        { change (r1 :: rest1.*1) with (((r1, node_label (n - 1)) :: rest1).*1).
          by apply list_elem_of_fmap_2. }
        assert (root ≠ nd.1) as Hne.
        { intros Heq. apply Hroot1. by rewrite Heq. }
        rewrite filter_fst_join.
        rewrite !(decide_False (P := root = nd.1)) by done.
        rewrite (filter_fst_notin es2 (r2 :: rest2.*1)); [|done|].
        -- simpl. by rewrite app_nil_r.
        -- intros Hx. by apply (Hdisj nd.1).
      * rewrite Forall_forall in Hk2 |- *. intros nd Hnd.
        apply (call_shape_weaken es2 _ (n - 2)); [lia| |by apply Hk2].
        assert (nd.1 ∈ r2 :: rest2.*1) as Hin.
        { change (r2 :: rest2.*1) with (((r2, node_label (n - 2)) :: rest2).*1).
          by apply list_elem_of_fmap_2. }
        assert (root ≠ nd.1) as Hne.
        { intros Heq. apply Hroot2. by rewrite Heq. }
        rewrite filter_fst_join.
        rewrite !(decide_False (P := root = nd.1)) by done.
        rewrite (filter_fst_notin es1 (r1 :: rest1.*1)); [done|done|].
        intros Hx. by apply (Hdisj nd.1).
Qed.

End TreeShape.

Section TreeCounts.

Lemma label_count_entered n parent g c k :
  label_count (entered n parent g c) (node_label k)
  = (label_count g (node_label k) + if decide (n = k) then 1 else 0)%nat.
Proof.
  unfold label_count. rewrite entered_nodes, filter_app, length_app. f_equal.
  rewrite filter_cons. simpl. case_decide as Hl; case_decide as Hk; try done.
  - by apply node_label_inj in Hl.
  - by subst.
Qed.

Lemma fib_SS m : fib (S (S m)) = (fib (S m) + fib m)%nat.
Proof. done. Qed.

Lemma occurrences_leaf n k :
  n ≤ 1 → occurrences n k = if decide (n = k) then 1%nat else 0%nat.
Proof.
  intros Hn. unfold occurrences. repeat case_decide; try done; try lia.
  - assert (n = 1) as -> by lia. done.
Qed.

Lemma occurrences_step n k :
  1 < n →
  occurrences n k
  = ((if decide (n = k) then 1 else 0)
     + occurrences (n - 1) k + occurrences (n - 2) k)%nat.
Proof.
  intros Hn. unfold occurrences.
  destruct (decide (n < k)).
  { rewrite (decide_False (P := n = k)) by lia.
    rewrite (decide_True (P := n - 1 < k)) by lia.
    by rewrite (decide_True (P := n - 2 < k)) by lia. }
  destruct (decide (n = k)) as [->|Hnk].
  { rewrite (decide_True (P := k - 1 < k)) by lia.
    by rewrite (decide_True (P := k - 2 < k)) by lia. }
  rewrite (decide_False (P := n - 1 < k)) by lia.
  destruct (decide (k = 0)) as [->|Hk0].
  - rewrite (decide_False (P := n - 1 = 0)) by lia.
    rewrite (decide_False (P := n - 2 < 0)) by lia.
    destruct (decide (n - 2 = 0)) as [Hn2|Hn2].
    + assert (n = 2) as -> by lia. done.
    + replace (Z.to_nat (n - 1)) with (S (S (Z.to_nat (n - 2 - 1)))) by lia.
      replace (Z.to_nat (n - 1 - 1)) with (S (Z.to_nat (n - 2 - 1))) by lia.
      rewrite fib_SS. lia.
  - destruct (decide (0 < k)) as [Hk|Hk].
    + destruct (decide (n - 1 = k)) as [Hk1|Hk1].
      { rewrite (decide_True (P := n - 2 < k)) by lia.
        replace (n - k + 1) with 2 by lia. done. }
      rewrite (decide_False (P := n - 2 < k)) by lia.
      destruct (decide (n - 2 = k)) as [Hk2|Hk2].
      { replace (n - k + 1) with 3 by lia.
        replace (n - 1 - k + 1) with 2 by lia. done. }
      replace (Z.to_nat (n - k + 1))
        with (S (S (Z.to_nat (n - 2 - k + 1)))) by lia.
      replace (Z.to_nat (n - 1 - k + 1))
        with (S (Z.to_nat (n - 2 - k + 1))) by lia.
      rewrite fib_SS. lia.
    + rewrite (decide_False (P := n - 1 = k)) by lia.
      rewrite (decide_False (P := n - 2 < k)) by lia.
      by rewrite (decide_False (P := n - 2 = k)) by lia.
Qed.

(** Every call adds its calls for [k] to the nodes labelled [fib(k)] and to
    the counter of [k]. *)
Lemma builds_count n parent g c g' c' k :
  builds n parent g c g' c' →
  label_count g' (node_label k)
  = (label_count g (node_label k) + occurrences n k)%nat ∧
  get c' k = get c k + Z.of_nat (occurrences n k).
Proof.
  induction 1 as [n parent g c Hn
                 | n parent g c g1 c1 g2 c2 Hn _ [IHl1 IHc1] _ [IHl2 IHc2]].
  - rewrite label_count_entered, get_insert, occurrences_leaf by done.
    split; [done|]. case_decide; [subst|]; lia.
  - rewrite IHl2, IHl1, IHc2, IHc1.
    rewrite label_count_entered, get_insert, (occurrences_step n k) by done.
    split; [lia|]. case_decide; [subst|]; lia.
Qed.

Lemma entered_counted n parent g c :
  counted g c → counted (entered n parent g c) (<[n := get c n + 1]> c).
Proof.
  intros [Hpos Hnames]. split.
  - intros v. rewrite get_insert. pose proof (Hpos v). pose proof (Hpos n).
    case_decide; [subst|]; lia.
  - intros v j. rewrite entered_names, elem_of_app, list_elem_of_singleton.
    rewrite Hnames, get_insert. pose proof (Hpos n). split.
    + intros [Hj | Heq].
      * case_decide; [subst|]; lia.
      * apply node_name_inj in Heq as [-> ->]. rewrite decide_True by done. lia.
    + case_decide as Hv.
      * subst v. intros Hj.
        destruct (decide (j = get c n)) as [->|Hne]; [by right|]. left. lia.
      * intros Hj. by left.
Qed.

Lemma builds_counted n parent g c g' c' :
  builds n parent g c g' c' → counted g c → counted g' c'.
Proof.
  induction 1 as [n parent g c Hn
                 | n parent g c g1 c1 g2 c2 Hn _ IH1 _ IH2]; intros Hc.
  - by apply entered_counted.
  - by apply IH2, IH1, entered_counted.
Qed.

Lemma counted_empty nm : counted (new nm) ∅.
Proof.
  split.
  - intros v. unfold get. by rewrite lookup_empty.
  - intros v j. unfold names, get. rewrite lookup_empty. simpl. split.
    + by intros ?%elem_of_nil.
    + lia.
Qed.

End TreeCounts.

(** X1. For every [n] the graph is a tree rooted at its first node
    [fib(n)_0]: it has one edge less than it has nodes, every edge joins
    two declared nodes, no edge enters the root and exactly one edge enters
    every other node. *)
Theorem draw_fib_tree_is_tree (n : Z) :
  ∃ G rest,
    (∀ depth, Z.max 1 n ≤ Z.of_nat depth → draw_fib_tree depth n = Some G) ∧
    nodes G = (node_name n 0, node_label n) :: rest ∧
    length (edges G) = length rest ∧
    Forall (λ e, e.1 ∈ names G ∧ e.2 ∈ names G) (edges G) ∧
    in_degree G (node_name n 0) = 0%nat ∧
    ∀ x, x ∈ rest.*1 → in_degree G x = 1%nat.
Proof.
  destruct (draw_fib_tree_builds n) as (G & c & Hrun & Hb).
  destruct (builds_shape _ _ _ _ _ _ Hb (empty_inv _)) as
    (Hinv & rest & es & Hnodes & Hedges & [Hlen Hends Hin _]); [done|].
  change (get ∅ n) with 0 in *. simpl in Hnodes, Hedges.
  exists G, rest. split; [done|]. split; [done|].
  assert (names G = node_name n 0 :: rest.*1) as Hnames.
  { unfold names. by rewrite Hnodes. }
  rewrite Hedges. split; [done|]. split; [|split].
  - rewrite Hnames. eapply Forall_impl; [exact Hends|].
    intros e [Ht Hh]. split; [done | by right].
  - unfold in_degree. rewrite Hedges.
    rewrite (filter_snd_notin es (rest.*1)); [done| |].
    + eapply Forall_impl; [exact Hends|]. by intros e [_ ?].
    + pose proof (inv_nodup _ _ Hinv) as Hnd. rewrite Hnames in Hnd.
      by apply NoDup_cons in Hnd as [? _].
  - intros x Hx. unfold in_degree. rewrite Hedges. by apply Hin.
Qed.

(** X2. Every node is named [fib(v)_k] and labelled [fib(v)] for a value
    [v], with [0 <= v <= n] when [n >= 0].  No edge leaves a node of value
    [v <= 1]; exactly two edges leave a node of value [v > 1], the first to
    a node of value [v - 1] and the second to a node of value [v - 2]. *)
Theorem draw_fib_tree_children (n : Z) :
  ∃ G,
    (∀ depth, Z.max 1 n ≤ Z.of_nat depth → draw_fib_tree depth n = Some G) ∧
    ∀ nm lbl, (nm, lbl) ∈ nodes G →
      ∃ v k, nm = node_name v k ∧ lbl = node_label v ∧
             (0 ≤ n → 0 ≤ v ≤ n) ∧
             (v ≤ 1 → out_edges G nm = []) ∧
             (1 < v → ∃ k1 k2, out_edges G nm
                               = [(nm, node_name (v - 1) k1);
                                  (nm, node_name (v - 2) k2)]).
Proof.
  destruct (draw_fib_tree_builds n) as (G & c & Hrun & Hb).
  destruct (builds_shape _ _ _ _ _ _ Hb (empty_inv _)) as
    (_ & rest & es & Hnodes & Hedges & [_ _ _ Hkids]); [done|].
  simpl in Hnodes, Hedges.
  exists G. split; [done|]. intros nm lbl Hin.
  rewrite Hnodes in Hin. rewrite Forall_forall in Hkids.
  destruct (Hkids _ Hin) as (v & k & [= -> ->] & Hv & Hk).
  exists v, k. split; [done|]. split; [done|]. split; [done|].
  unfold out_edges, kids in *. rewrite Hedges.
  split; intros Hv1.
  - by rewrite decide_True in Hk.
  - by rewrite decide_False in Hk by lia.
Qed.

(** X3. For [1 <= k <= n] the graph has exactly [fib (n - k + 1)] nodes
    labelled [fib(k)], named [fib(k)_0] to [fib(k)_(fib (n - k + 1) - 1)],
    and exactly [fib (n - 1)] nodes labelled [fib(0)]. *)
Theorem draw_fib_tree_occurrences (n k : Z) :
  1 ≤ k ≤ n →
  ∃ G,
    (∀ depth, Z.max 1 n ≤ Z.of_nat depth → draw_fib_tree depth n = Some G) ∧
    label_count G (node_label k) = fib (Z.to_nat (n - k + 1)) ∧
    label_count G (node_label 0) = fib (Z.to_nat (n - 1)) ∧
    ∀ j, node_name k j ∈ names G
         ↔ 0 ≤ j < Z.of_nat (fib (Z.to_nat (n - k + 1))).
Proof.
  intros Hk.
  destruct (draw_fib_tree_builds n) as (G & c & Hrun & Hb).
  exists G. split; [done|].
  assert (occurrences n k = fib (Z.to_nat (n - k + 1))) as Hocck.
  { unfold occurrences. rewrite decide_False by lia.
    case_decide as Hnk.
    - subst. by replace (k - k + 1) with 1 by lia.
    - rewrite decide_False by lia. by rewrite decide_True by lia. }
  assert (occurrences n 0 = fib (Z.to_nat (n - 1))) as Hocc0.
  { unfold occurrences. rewrite !decide_False by lia. by rewrite decide_True. }
  split; [|split].
  - destruct (builds_count _ _ _ _ _ _ k Hb) as [-> _]. by rewrite Hocck.
  - destruct (builds_count _ _ _ _ _ _ 0 Hb) as [-> _]. by rewrite Hocc0.
  - intros j.
    destruct (builds_counted _ _ _ _ _ _ Hb (counted_empty _)) as [_ ->].
    destruct (builds_count _ _ _ _ _ _ k Hb) as [_ ->]. by rewrite Hocck.
Qed.

Lemma draw_fib_tree_occurrences_witness :
  1 ≤ 3 ≤ 5 ∧
  ∃ G,
    (∀ depth, Z.max 1 5 ≤ Z.of_nat depth → draw_fib_tree depth 5 = Some G) ∧
    label_count G (node_label 3) = fib (Z.to_nat (5 - 3 + 1)) ∧
    label_count G (node_label 0) = fib (Z.to_nat (5 - 1)) ∧
    ∀ j, node_name 3 j ∈ names G
         ↔ 0 ≤ j < Z.of_nat (fib (Z.to_nat (5 - 3 + 1))).
Proof. split; [lia | apply (draw_fib_tree_occurrences 5 3); lia]. Defined.

(** ** Clicks: the set of highlighted cells *)

Section Toggle.

Lemma HighlightSet_elem self c :
  c ∈ HighlightSet self ↔ c ∈ cell_of <$> highlight_rects self.
Proof. unfold HighlightSet. by rewrite elem_of_list_to_set. Qed.

Lemma highlighted_find self col row :
  rendered_inv self →
  (col, row) ∈ HighlightSet self →
  ∃ i, list_find (λ rect, same_xy (xy rect) (corner col row) = true)
         (highlight_rects self)
       = Some (i, mark_added (new_rect col row)).
Proof.
  intros [_ Hrects _] Hin.
  apply HighlightSet_elem, list_elem_of_fmap in Hin as (rect & Hc & Hin).
  rewrite Forall_forall in Hrects.
  destruct (Hrects _ Hin) as (c' & r' & ->).
  rewrite cell_of_on_axes in Hc. simplify_eq.
  destruct (list_find (λ rect, same_xy (xy rect) (corner c' r') = true)
              (highlight_rects self)) as [[i rect]|] eqn:Hf.
  - exists i. do 2 f_equal.
    apply list_find_Some in Hf as (Hi & HP & _).
    apply same_xy_cell; [|done]. eapply Hrects. by eapply list_elem_of_lookup_2.
  - exfalso. rewrite list_find_None, Forall_forall in Hf.
    apply (Hf _ Hin). simpl. by apply same_xy_corner.
Qed.

End Toggle.

(** X4. A click on a rendered instance toggles the cell it rounds to: a
    highlighted cell leaves the set of highlighted cells, any other cell
    joins it, and no other cell is touched. *)
Theorem onclick_toggles_cell (self : t Q) (event : MouseEvent) (col row : Z) :
  rendered self →
  cell_of_event event = Ok (col, row) →
  HighlightSet (onclick self event).1
  = if decide ((col, row) ∈ HighlightSet self)
    then HighlightSet self ∖ {[(col, row)]}
    else HighlightSet self ∪ {[(col, row)]}.
Proof.
  intros Hr He. pose proof (rendered_rendered_inv _ Hr) as Hinv.
  destruct (onclick_highlight self event col row He (inv_ax _ Hinv)
              (inv_rects _ Hinv)) as [Hl _].
  unfold HighlightSet at 1. rewrite Hl. clear Hl.
  case_decide as Hin.
  - destruct (highlighted_find self col row Hinv Hin) as [i Hf].
    rewrite Hf. apply list_find_Some in Hf as (Hi & _ & _).
    pose proof (inv_cells _ Hinv) as Hnd.
    pose proof (delete_Permutation _ _ _ Hi) as Hperm.
    apply set_eq. intros c.
    rewrite elem_of_difference, elem_of_singleton, HighlightSet_elem,
      elem_of_list_to_set.
    rewrite Hperm in Hnd. rewrite Hperm at 2.
    rewrite fmap_cons, cell_of_on_axes in Hnd |- *.
    apply NoDup_cons in Hnd as [Hnotin _].
    rewrite elem_of_cons. split.
    + intros Hc. split; [by right|]. by intros ->.
    + by intros [[->|Hc] Hne].
  - rewrite (not_highlighted_find self col row Hinv Hin).
    unfold HighlightSet. rewrite fmap_app, list_to_set_app_L. simpl.
    rewrite cell_of_on_axes. by rewrite union_empty_r_L.
Qed.

Lemma onclick_toggles_cell_witness :
  rendered ((display wrapped_1d true).1) ∧
  cell_of_event (click 2 0) = Ok (2, 0) ∧
  HighlightSet (onclick (display wrapped_1d true).1 (click 2 0)).1
  = if decide ((2, 0) ∈ HighlightSet (display wrapped_1d true).1)
    then HighlightSet (display wrapped_1d true).1 ∖ {[(2, 0)]}
    else HighlightSet (display wrapped_1d true).1 ∪ {[(2, 0)]}.
Proof.
  assert (rendered (display wrapped_1d true).1) as Hr.
  { apply (rendered_first _ _ _ _ _ _ wrapped_1d_init). by eexists. }
  split; [exact Hr|]. split; [reflexivity|].
  apply (onclick_toggles_cell (display wrapped_1d true).1 (click 2 0) 2 0 Hr).
  reflexivity.
Defined.

(** ** What is drawn and what is counted *)

Section Drawn.

Lemma same_xy_on_axes r r' :
  on_axes r → on_axes r' → same_xy (xy r) (xy r') = true → r = r'.
Proof.
  intros Hr (c' & w' & ->) Hs. simpl in Hs. by apply same_xy_cell in Hs.
Qed.

Lemma remove_xy_none c (p : list Rectangle) :
  Forall (λ y, same_xy (xy y) c ≠ true) p → remove_xy c p = p.
Proof.
  induction 1 as [|y p Hy _ IH]; simpl; [done|].
  destruct (same_xy (xy y) c); [done|]. by rewrite IH.
Qed.

(** Removing a rectangle from the patches and from the highlight list
    keeps the patches inside the list. *)
Lemma sublist_remove (p l : list Rectangle) :
  p `sublist_of` l → ∀ i r,
  Forall on_axes l → NoDup (cell_of <$> l) → l !! i = Some r →
  remove_xy (xy r) p `sublist_of` delete i l.
Proof.
  induction 1 as [|x p l Hsub IH|x p l Hsub IH]; intros i r Hl Hnd Hi.
  - done.
  - apply Forall_cons in Hl as [Hx Hl]. rewrite fmap_cons in Hnd.
    apply NoDup_cons in Hnd as [Hnotin Hnd].
    destruct i as [|i]; simpl in *.
    + simplify_eq. destruct (same_xy (xy r) (xy r)) eqn:Hs; [done|].
      destruct Hx as (c & w & ->). simpl in Hs.
      by rewrite (proj2 (same_xy_corner c w c w)) in Hs.
    + assert (x ≠ r) as Hne.
      { intros ->. apply Hnotin. apply list_elem_of_fmap_2.
        by eapply list_elem_of_lookup_2. }
      destruct (same_xy (xy x) (xy r)) eqn:Hs.
      * exfalso. apply Hne. apply same_xy_on_axes; [done| |done].
        rewrite Forall_lookup in Hl. by eapply Hl.
      * apply sublist_skip. by apply IH.
  - apply Forall_cons in Hl as [Hx Hl]. rewrite fmap_cons in Hnd.
    apply NoDup_cons in Hnd as [Hnotin Hnd].
    destruct i as [|i]; simpl in *.
    + simplify_eq. rewrite remove_xy_none; [done|].
      apply Forall_forall. intros y Hy Hs. apply Hnotin.
      assert (y ∈ l) as Hyl by (by eapply elem_of_sublist).
      rewrite Forall_forall in Hl.
      apply (same_xy_on_axes y r) in Hs; [|by apply Hl|done].
      subst. by apply list_elem_of_fmap_2.
    + apply sublist_cons. by apply IH.
Qed.

Lemma display_patches self clear a :
  ax (display self clear).1 = Some a → patches a = [] ∨ ax self = Some a.
Proof.
  unfold display.
  destruct (np.shape (arr self)) as [|n [|cols [|? ?]]]; try (by right).
  - rewrite show_self. simpl. intros [= <-]. by left.
  - case_decide; [simpl; intros [= <-]; by left|].
    destruct (yticks self); [rewrite show_self|]; simpl; intros [= <-]; by left.
Qed.

(** The patches of the axes are among the highlight rectangles. *)
Lemma rendered_drawn self :
  rendered self →
  ∀ a, ax self = Some a → patches a `sublist_of` highlight_rects self.
Proof.
  induction 1 as [obj st xt yt self clear Hinit Hax | self clear Hr IH
                 | self event Hr IH]; intros a Ha.
  - apply init_fresh in Hinit as (_ & Hnone & _).
    apply display_patches in Ha as [-> | Ha]; [apply sublist_nil_l|].
    congruence.
  - rewrite display_highlight_rects.
    apply display_patches in Ha as [-> | Ha]; [apply sublist_nil_l | by apply IH].
  - pose proof (rendered_rendered_inv _ Hr) as [[a0 Ha0] Hrects Hcells].
    specialize (IH a0 Ha0).
    destruct (cell_of_event event) as [[col row]|e] eqn:He.
    + unfold onclick in *. rewrite He in *.
      destruct (list_find _ _) as [[i rect]|] eqn:Hf.
      * apply list_find_Some in Hf as (Hi & _ & _).
        rewrite Forall_lookup in Hrects.
        destruct (Hrects _ _ Hi) as (c & w & ->). simpl in *.
        rewrite Ha0 in Ha. simpl in Ha. injection Ha as <-. simpl.
        apply (sublist_remove _ _ IH i (mark_added (new_rect c w)));
          [by apply Forall_lookup|done..].
      * rewrite Ha0 in *. simpl in *. injection Ha as <-. simpl.
        by apply sublist_app.
    + rewrite (onclick_no_cell _ _ e He) in *. rewrite Ha0 in Ha.
      by injection Ha as <-.
Qed.

End Drawn.

(** X5. In every instance reached by rendering and clicking, no cell is
    highlighted twice, every highlight rectangle is the unit square around
    its cell, and the rectangles drawn on the current axes are among the
    highlight rectangles, in the same order. *)
Theorem rendered_highlights (self : t Q) :
  rendered self →
  NoDup (cell_of <$> highlight_rects self) ∧
  Forall (λ rect, ∃ col row, rect = mark_added (new_rect col row))
    (highlight_rects self) ∧
  ∃ a, ax self = Some a ∧ patches a `sublist_of` highlight_rects self.
Proof.
  intros Hr. destruct (rendered_rendered_inv _ Hr) as [[a Ha] Hrects Hcells].
  split; [done|]. split; [done|]. exists a. split; [done|].
  by apply rendered_drawn.
Qed.

Lemma rendered_highlights_witness :
  rendered ((onclick (display wrapped_1d true).1 (click 2 0)).1) ∧
  NoDup (cell_of <$>
           highlight_rects (onclick (display wrapped_1d true).1 (click 2 0)).1) ∧
  Forall (λ rect, ∃ col row, rect = mark_added (new_rect col row))
    (highlight_rects (onclick (display wrapped_1d true).1 (click 2 0)).1) ∧
  ∃ a, ax (onclick (display wrapped_1d true).1 (click 2 0)).1 = Some a ∧
       patches a `sublist_of`
         highlight_rects (onclick (display wrapped_1d true).1 (click 2 0)).1.
Proof.
  assert (rendered (onclick (display wrapped_1d true).1 (click 2 0)).1) as Hr.
  { apply rendered_click.
    apply (rendered_first _ _ _ _ _ _ wrapped_1d_init). by eexists. }
  split; [exact Hr|].
  apply (rendered_highlights (onclick (display wrapped_1d true).1 (click 2 0)).1 Hr).
Defined.

(** X6. The failures of a click.  An event outside the axes, whose [xdata]
    or [ydata] is [None], raises [TypeError] and changes nothing.  A click
    on a new instance that was never rendered raises [AttributeError], with
    the rectangle of the cell already appended to the highlight list. *)
Theorem onclick_failures (obj : np.pyobj Q) (stats : bool)
    (xticks yticks : option (list label)) (event : MouseEvent) (self : t Q) :
  ((xdata event = None ∨ ydata event = None) →
   onclick self event = (self, Raise TypeError)) ∧
  match __init__ obj stats xticks yticks, cell_of_event event with
  | Ok w, Ok (col, row) =>
      onclick w event
      = (set_highlight_rects [new_rect col row] w, Raise AttributeError)
  | _, _ => True
  end.
Proof.
  split.
  - unfold onclick, cell_of_event. intros [-> | ->]; [done|].
    by destruct (xdata event).
  - destruct (__init__ obj stats xticks yticks) as [w|] eqn:Hinit; [|done].
    destruct (cell_of_event event) as [[col row]|] eqn:He; [|done].
    apply init_fresh in Hinit as (Hl & Hax & _).
    unfold onclick. by rewrite He, Hl, Hax.
Qed.

(** ** What [display] writes *)

Section DisplayFacts.

Lemma length_bind_const {X Y} (f : X → list Y) (l : list X) (k : nat) :
  (∀ x, length (f x) = k) → length (l ≫= f) = (length l * k)%nat.
Proof.
  intros Hf. induction l as [|x l IH]; [done|].
  rewrite bind_cons, length_app, IH, Hf. simpl. lia.
Qed.

Lemma getitem2_cell (a : np.ndarray Q) (rows cols i j : nat) :
  np.shape a = [rows; cols] → np.wf a → (i < rows)%nat → (j < cols)%nat →
  np.getitem2 a (Z.of_nat i) (Z.of_nat j)
  = Ok {| np.shape := []; np.data := [nth (i * cols + j) (np.data a) 0%Q] |}.
Proof.
  unfold np.wf, np.getitem2, np.index, np.block. intros -> Hwf Hi Hj.
  rewrite !decide_True by lia. simpl in *. rewrite !Nat2Z.id, Nat.mul_1_r.
  destruct (lookup_lt_is_Some_2 (np.data a) (i * cols + j)) as [v Hv]; [nia|].
  rewrite (take_1_drop _ _ v Hv). by rewrite (nth_lookup_Some _ _ _ _ Hv).
Qed.

End DisplayFacts.

(** X7. [display] on a rank-2 array with at least one row and one column,
    [stats] off, as many x labels as there are x ticks (one per row) and as
    many y labels as there are y ticks (one per column) returns without
    printing; the new axes has no highlight rectangle and one text per
    cell, the text of the cell in row [i] and column [j] sitting at
    x = [j], y = [i] and showing [arr[i, j]].  On an array of another rank
    than 1 or 2 it prints that the dimensions are not supported and leaves
    the instance as it is. *)
Theorem display_rank_2 (self : t Q) (clear : bool) (rows cols : nat)
    (yl : list label) :
  np.shape (arr self) = [rows; cols] → np.wf (arr self) →
  (0 < rows)%nat → (0 < cols)%nat →
  yticks self = Some yl → stats self = false →
  length (xticks self) = rows → length yl = cols →
  (∃ a, display self clear = (set_ax (Some a) self, Ok []) ∧
        patches a = [] ∧
        length (xtick_locs a) = length (xticklabels a) ∧
        length (ytick_locs a) = length (yticklabels a) ∧
        length (texts a) = (rows * cols)%nat ∧
        ∀ i j, (i < rows)%nat → (j < cols)%nat →
          ∃ v, np.getitem2 (arr self) (Z.of_nat i) (Z.of_nat j)
               = Ok {| np.shape := []; np.data := [v] |} ∧
               (Z.of_nat j, Z.of_nat i, v) ∈ texts a) ∧
  (∀ other : t Q,
     length (np.shape (arr other)) ≠ 1%nat →
     length (np.shape (arr other)) ≠ 2%nat →
     display other clear = (other, Ok ["Array dimensions not supported."])).
Proof.
  intros Hs Hwf Hrows Hcols Hy Hst Hxl Hyl. split.
  - unfold display. rewrite Hs, Hy. rewrite decide_False by lia.
    unfold show. simpl. rewrite Hst.
    eexists. split; [reflexivity|]. simpl. split; [done|].
    split; [by rewrite Hxl; unfold np.arange; rewrite length_fmap, length_seq|].
    split; [by rewrite Hyl; unfold np.arange; rewrite length_fmap, length_seq|].
    split.
    + rewrite (length_bind_const _ _ cols), length_seq; [done|].
      intros i. rewrite (length_bind_const _ _ 1), length_seq; [lia|done].
    + intros i j Hi Hj. eexists. split; [by apply (getitem2_cell _ rows cols)|].
      apply list_elem_of_bind. exists i. split; [|apply elem_of_seq; lia].
      apply list_elem_of_bind. exists j. split; [|apply elem_of_seq; lia].
      by apply list_elem_of_singleton.
  - intros other H1 H2. unfold display.
    destruct (np.shape (arr other)) as [|? [|? [|? ?]]]; done.
Qed.

Lemma display_rank_2_witness :
  np.shape (arr wrapped_2x3) = [2; 3]%nat ∧ np.wf (arr wrapped_2x3) ∧
  (0 < 2)%nat ∧ (0 < 3)%nat ∧
  yticks wrapped_2x3 = Some (IntLabel <$> [0; 1; 2]) ∧
  stats wrapped_2x3 = false ∧
  length (xticks wrapped_2x3) = 2%nat ∧
  length (IntLabel <$> [0; 1; 2]) = 3%nat ∧
  ∃ a, display wrapped_2x3 true = (set_ax (Some a) wrapped_2x3, Ok []) ∧
       patches a = [] ∧
       length (texts a) = (2 * 3)%nat.
Proof.
  repeat (split; [reflexivity || lia|]).
  destruct (display_rank_2 wrapped_2x3 true 2 3 (IntLabel <$> [0; 1; 2]))
    as [(a & Hd & Hp & _ & _ & Hl & _) _]; try reflexivity; [lia..|].
  by exists a.
Defined.

(** ** [sum] along an axis *)

Section SumFacts.

Lemma axis_index_Ok k nd :
  index_ok nd k → ∃ k', np.axis_index k nd = Ok k' ∧ (k' < nd)%nat.
Proof.
  unfold index_ok, np.axis_index. intros Hk.
  destruct (decide (0 ≤ k < Z.of_nat nd)).
  - exists (Z.to_nat k). split; [done | lia].
  - rewrite decide_True by lia. exists (Z.to_nat (k + Z.of_nat nd)).
    split; [done | lia].
Qed.

Lemma axis_index_Raise k nd :
  ¬ index_ok nd k → np.axis_index k nd = Raise AxisError.
Proof.
  unfold index_ok, np.axis_index. intros Hk. by rewrite !decide_False by lia.
Qed.

Lemma init_default_cases {A} (a : np.ndarray A) :
  match np.shape a with
  | [] => __init__ (np.NdArray a) false None None = Raise IndexError
  | _ => ∃ w, __init__ (np.NdArray a) false None None = Ok w ∧
              arr w = a ∧ highlight_rects w = [] ∧ ax w = None
  end.
Proof.
  unfold __init__. destruct a as [[|d [|d2 rest]] buf]; simpl; [done|..];
    by eexists.
Qed.

End SumFacts.

(** X8. [sum(axis)] returns exactly when the array has at least two axes
    and [axis] is an integer in [-ndim .. ndim - 1]: the result is a new
    instance, without highlight or axes, whose shape is the shape without
    that axis.  Otherwise it raises: [IndexError] for [axis=None] and for
    an axis that the reduction accepts on an array of rank 0 or 1, the
    result being a scalar; [AxisError] for an axis that the reduction
    refuses. *)
Theorem sum_outcomes (self : t Q) (axis : option Z) :
  let shp := np.shape (arr self) in
  match InteractiveArray.sum self axis with
  | Ok w =>
      ∃ k k', axis = Some k ∧ np.axis_index k (length shp) = Ok k' ∧
              (2 ≤ length shp)%nat ∧
              np.shape (arr w) = take k' shp ++ drop (S k') shp ∧
              highlight_rects w = [] ∧ ax w = None
  | Raise e =>
      (axis = None ∧ e = IndexError) ∨
      (∃ k, axis = Some k ∧ ¬ axis_ok (length shp) k ∧ e = AxisError) ∨
      (∃ k, axis = Some k ∧ axis_ok (length shp) k ∧ (length shp ≤ 1)%nat ∧
            e = IndexError)
  end.
Proof.
  intros shp. unfold InteractiveArray.sum, np.sum.
  destruct axis as [k|]; [|left; done].
  fold shp. destruct shp as [|d0 shp0] eqn:Hshp.
  { destruct (decide (k = 0 ∨ k = -1)) as [Hk|Hk]; simpl.
    - right. right. exists k. split; [done|]. split; [done|]. split; [lia|done].
    - right. left. by exists k. }
  rewrite <- Hshp. assert (shp ≠ []) as Hne by (by rewrite Hshp).
  assert (axis_ok (length shp) k ↔ index_ok (length shp) k) as Hok.
  { rewrite Hshp. reflexivity. }
  destruct (decide (index_ok (length shp) k)) as [Hk|Hk].
  - destruct (axis_index_Ok _ _ Hk) as (k' & Hk' & Hlt).
    rewrite Hk'. simpl.
    pose proof (init_default_cases (np.sum_axis (arr self) k')) as Hinit.
    assert (length (np.shape (np.sum_axis (arr self) k')) = (length shp - 1)%nat)
      as Hlen.
    { simpl. fold shp. rewrite length_app, length_take, length_drop. lia. }
    destruct (np.shape (np.sum_axis (arr self) k')) as [|d rest] eqn:Hs.
    + rewrite Hinit. right. right. exists k. simpl in Hlen.
      split; [done|]. split; [by apply Hok|]. split; [lia|done].
    + destruct Hinit as (w & -> & Harr & Hl & Hax).
      exists k, k'. rewrite Harr. simpl in Hlen.
      split; [done|]. split; [done|]. split; [lia|]. by split.
  - rewrite (axis_index_Raise _ _ Hk). simpl.
    right. left. exists k. split; [done|]. split; [|done]. by rewrite Hok.
Qed.

(** ** The operators on arrays and scalars *)

Section OperatorResults.

Lemma init_fresh_result {C} (d : nat) (rest : list nat) (buf : list C) :
  fresh_result
    (__init__ (np.NdArray {| np.shape := d :: rest; np.data := buf |})
       false None None)
    (d :: rest) buf.
Proof.
  unfold fresh_result, __init__. simpl.
  destruct rest as [|d2 rest]; simpl; by eexists.
Qed.

Lemma binary_op_wrapped {A B C} (op : A → B → C) (self : t A) (other : t B)
    d rest :
  np.shape (arr self) = d :: rest →
  np.shape (arr other) = d :: rest →
  np.wf (arr self) → np.wf (arr other) →
  fresh_result (binary_op op self (Wrapped other)) (d :: rest)
    (zip_with op (np.data (arr self)) (np.data (arr other))).
Proof.
  intros Hs Ho Hws Hwo. unfold binary_op.
  rewrite binary_same_shape by (done || congruence). simpl. rewrite Hs.
  apply init_fresh_result.
Qed.

Lemma size_ones k : np.size (replicate k 1%nat) = 1%nat.
Proof. induction k as [|k IH]; simpl; [done|]. rewrite IH. done. Qed.

Lemma join_replicate {X} (t k : nat) (x : X) :
  mjoin (replicate t (replicate k x)) = replicate (t * k) x.
Proof.
  induction t as [|t IH]; simpl; [done|]. by rewrite IH, replicate_add.
Qed.

(** A scalar seen with the shape [s]: one copy per cell. *)
Lemma expand_ones {X} (s : list nat) (x : X) :
  np.expand (replicate (length s) 1%nat) s [x] = replicate (np.size s) x.
Proof.
  induction s as [|t s IH]; [done|]. simpl.
  rewrite size_ones. case_decide as Ht.
  - subst t. simpl. rewrite app_nil_r, IH. by rewrite Nat.add_0_r.
  - rewrite IH. apply join_replicate.
Qed.

Lemma broadcast_rev_nil_r r : np.broadcast_rev r [] = Ok r.
Proof. by destruct r. Qed.

Lemma zip_with_replicate_r {X Y Z'} (f : X → Y → Z') (l : list X) (y : Y) :
  zip_with f l (replicate (length l) y) = (λ x, f x y) <$> l.
Proof. induction l as [|x l IH]; simpl; [done|]. by rewrite IH. Qed.

(** An array and a Python number: the number is combined with every
    element. *)
Lemma binary_scalar {A B C} (f : A → B → C) (a : np.ndarray A) (y : B) :
  np.wf a →
  np.binary f a (np.array (np.PyNumber y))
  = Ok {| np.shape := np.shape a; np.data := (λ x, f x y) <$> np.data a |}.
Proof.
  unfold np.wf, np.binary, np.broadcast_shapes, np.broadcast_to. intros Hwf.
  simpl. rewrite broadcast_rev_nil_r. simpl. rewrite reverse_involutive.
  rewrite Nat.sub_diag, Nat.sub_0_r, app_nil_r. simpl.
  rewrite expand_same by done. rewrite expand_ones, <- Hwf.
  by rewrite zip_with_replicate_r.
Qed.

Lemma broadcast_rev_length r1 r2 r :
  np.broadcast_rev r1 r2 = Ok r → length r = (length r1 `max` length r2)%nat.
Proof.
  revert r2 r. induction r1 as [|d1 r1 IH]; intros [|d2 r2] r; simpl.
  - by intros [= <-].
  - by intros [= <-].
  - intros [= <-]. simpl. lia.
  - destruct (np.broadcast_rev r1 r2) as [rest|] eqn:Hrest; simpl; [|done].
    apply IH in Hrest.
    repeat case_decide; intros [= <-]; simpl; lia.
Qed.

Lemma broadcast_rev_exn r1 r2 e :
  np.broadcast_rev r1 r2 = Raise e → e = ValueError.
Proof.
  revert r2. induction r1 as [|d1 r1 IH]; intros [|d2 r2]; simpl; try done.
  destruct (np.broadcast_rev r1 r2) as [rest|e'] eqn:Hrest; simpl.
  - repeat case_decide; congruence.
  - intros [= <-]. by eapply IH.
Qed.

Lemma binary_op_exn {A B C} (op : A → B → C) (self : t A) (other : operand B) e :
  np.shape (arr self) ≠ [] →
  binary_op op self other = Raise e → e = ValueError.
Proof.
  intros Hs.
  assert (∀ b : np.ndarray B,
            (r ← np.binary op (arr self) b;
             __init__ (np.NdArray r) false None None) = Raise e →
            e = ValueError) as Hb.
  { intros b. unfold np.binary, np.broadcast_shapes.
    destruct (np.broadcast_rev _ _) as [r|e'] eqn:Hr; simpl.
    - apply broadcast_rev_length in Hr. rewrite !length_reverse in Hr.
      pose proof (init_default_cases
        {| np.shape := reverse r;
           np.data := zip_with op (np.broadcast_to (arr self) (reverse r))
                        (np.broadcast_to b (reverse r)) |}) as Hinit.
      simpl in Hinit. destruct (reverse r) as [|d rest] eqn:Hrev.
      + apply (f_equal length) in Hrev. rewrite length_reverse in Hrev.
        simpl in Hrev. destruct (np.shape (arr self)); [done|simpl in Hr; lia].
      + destruct Hinit as (w & -> & _). done.
    - intros [= <-]. by eapply broadcast_rev_exn. }
  unfold binary_op. destruct other as [w|o]; apply Hb.
Qed.

Lemma binary_mismatch {A B C} (op : A → B → C) (a : np.ndarray A)
    (b : np.ndarray B) (m n : nat) :
  np.shape a = [m] → np.shape b = [n] → m ≠ n → m ≠ 1%nat → n ≠ 1%nat →
  np.binary op a b = Raise ValueError.
Proof.
  intros Ha Hb Hmn Hm Hn. unfold np.binary, np.broadcast_shapes.
  rewrite Ha, Hb. simpl. by rewrite !decide_False.
Qed.

End OperatorResults.

(** X9. An operator applied to two instances of one shape returns a new
    instance of that shape whose buffer holds the results element by
    element, with no highlight, no axes, [stats] off and default x labels.
    [binary_op op] is the body of each of the ten operators: [__add__ add]
    is [binary_op add], and so on to [__eq__ equal]. *)
Theorem operator_same_shape {A B C : Type} (op : A → B → C)
    (self : t A) (other : t B) (d : nat) (rest : list nat) :
  np.shape (arr self) = d :: rest →
  np.shape (arr other) = d :: rest →
  np.wf (arr self) → np.wf (arr other) →
  fresh_result (binary_op op self (Wrapped other)) (d :: rest)
    (zip_with op (np.data (arr self)) (np.data (arr other))) ∧
  binary_op op self (Raw (np.NdArray (arr other)))
  = binary_op op self (Wrapped other).
Proof. intros. split; [by apply binary_op_wrapped | done]. Qed.

Lemma operator_same_shape_witness :
  np.shape (arr wrapped_1d) = [3%nat] ∧
  np.shape (arr wrapped_1d_other) = [3%nat] ∧
  np.wf (arr wrapped_1d) ∧ np.wf (arr wrapped_1d_other) ∧
  fresh_result (__add__ Qplus wrapped_1d (Wrapped wrapped_1d_other)) [3%nat]
    (zip_with Qplus [10; 20; 30]%Q [10; 21; 30]%Q).
Proof.
  repeat (split; [reflexivity|]).
  apply (operator_same_shape Qplus wrapped_1d wrapped_1d_other 3 []);
    reflexivity.
Defined.

(** X10. An operator applied to an instance and a Python number returns a
    new instance of the same shape in which every element is combined with
    the number. *)
Theorem operator_scalar {A B C : Type} (op : A → B → C) (self : t A) (y : B)
    (d : nat) (rest : list nat) :
  np.shape (arr self) = d :: rest → np.wf (arr self) →
  fresh_result (binary_op op self (Raw (np.PyNumber y))) (d :: rest)
    ((λ x, op x y) <$> np.data (arr self)).
Proof.
  intros Hs Hwf. unfold binary_op. rewrite binary_scalar by done. simpl.
  rewrite Hs. apply init_fresh_result.
Qed.

Lemma operator_scalar_witness :
  np.shape (arr wrapped_2x3) = [2; 3]%nat ∧ np.wf (arr wrapped_2x3) ∧
  fresh_result (__mul__ Qmult wrapped_2x3 (Raw (np.PyNumber 2%Q)))
    [2; 3]%nat ((λ x, x * 2)%Q <$> [1; 2; 3; 4; 5; 6]%Q).
Proof.
  repeat (split; [reflexivity|]).
  apply (operator_scalar Qmult wrapped_2x3 2%Q 2 [3%nat]); reflexivity.
Defined.

(** X11. On an instance with at least one axis an operator raises nothing
    but [ValueError], the failure of broadcasting; it does so for two
    rank-1 arrays whose lengths differ and are both other than 1. *)
Theorem operator_shape_mismatch {A B C : Type} (op : A → B → C)
    (self : t A) (other : t B) (m n : nat) :
  np.shape (arr self) = [m] → np.shape (arr other) = [n] →
  m ≠ n → m ≠ 1%nat → n ≠ 1%nat →
  binary_op op self (Wrapped other) = Raise ValueError ∧
  ∀ (operand' : operand B) e,
    binary_op op self operand' = Raise e → e = ValueError.
Proof.
  intros Hm Hn Hmn Hm1 Hn1. split.
  - unfold binary_op. by rewrite (binary_mismatch op _ _ m n).
  - intros o e. apply binary_op_exn. by rewrite Hm.
Qed.

Lemma operator_shape_mismatch_witness :
  np.shape (arr wrapped_1d) = [3%nat] ∧
  np.shape (arr (set_arr {| np.shape := [2%nat]; np.data := [1; 2]%Q |}
                   wrapped_1d)) = [2%nat] ∧
  3%nat ≠ 2%nat ∧ 3%nat ≠ 1%nat ∧ 2%nat ≠ 1%nat ∧
  __sub__ Qminus wrapped_1d
    (Wrapped (set_arr {| np.shape := [2%nat]; np.data := [1; 2]%Q |} wrapped_1d))
  = Raise ValueError.
Proof.
  split; [reflexivity|]. split; [reflexivity|].
  split; [lia|]. split; [lia|]. split; [lia|].
  apply (operator_shape_mismatch Qminus wrapped_1d
           (set_arr {| np.shape := [2%nat]; np.data := [1; 2]%Q |} wrapped_1d)
           3 2); (reflexivity || lia).
Defined.

(** ** Indexing *)

Section Indexing.

Lemma index_position i d :
  index_ok d i → np.index i d = Ok (position d i) ∧ (position d i < d)%nat.
Proof.
  unfold index_ok, np.index, position. intros Hi.
  destruct (decide (0 ≤ i < Z.of_nat d)) as [Hin|Hout].
  - rewrite Z.mod_small by lia. split; [done | lia].
  - rewrite decide_True by lia.
    replace (i `mod` Z.of_nat d) with (i + Z.of_nat d).
    + split; [done | lia].
    + rewrite <- (Z.mod_small (i + Z.of_nat d) (Z.of_nat d)) by lia.
      rewrite <- (Z_mod_plus_full i 1 (Z.of_nat d)). f_equal. lia.
Qed.

Lemma position_nat (d k : nat) : (k < d)%nat → position d (Z.of_nat k) = k.
Proof. intros Hk. unfold position. rewrite Z.mod_small by lia. lia. Qed.

Lemma flat_index_inj (cols k1 k2 k1' k2' : nat) :
  (k2 < cols)%nat → (k2' < cols)%nat →
  (k1 * cols + k2 = k1' * cols + k2')%nat → k1 = k1' ∧ k2 = k2'.
Proof.
  intros H2 H2' Heq.
  assert (k1 = k1') as -> by nia. split; [done | lia].
Qed.

Lemma fill_cell {A} (a : np.ndarray A) (k : nat) (x : A) :
  (k < length (np.data a))%nat →
  np.fill a k [] x
  = {| np.shape := np.shape a; np.data := <[k := x]> (np.data a) |}.
Proof.
  intros Hk. unfold np.fill. simpl. f_equal.
  rewrite Nat.mul_1_r, Nat.add_1_r. by rewrite insert_take_drop.
Qed.

Lemma getitem2_at {A} (a : np.ndarray A) (rows cols : nat) (i j : Z) :
  np.shape a = [rows; cols] → index_ok rows i → index_ok cols j →
  np.getitem2 a i j
  = Ok {| np.shape := [];
          np.data := take 1 (drop (position rows i * cols + position cols j)
                               (np.data a)) |}.
Proof.
  intros Hs Hi Hj. unfold np.getitem2, np.block. rewrite Hs.
  destruct (index_position _ _ Hi) as [-> _].
  destruct (index_position _ _ Hj) as [-> _]. simpl.
  by rewrite Nat.mul_1_r.
Qed.

Lemma getitem2_Raise {A} (a : np.ndarray A) (rows cols : nat) (i j : Z) :
  np.shape a = [rows; cols] → ¬ (index_ok rows i ∧ index_ok cols j) →
  np.getitem2 a i j = Raise IndexError.
Proof.
  intros Hs Hij. unfold np.getitem2. rewrite Hs.
  destruct (decide (index_ok rows i)) as [Hi|Hi].
  - destruct (index_position _ _ Hi) as [-> _]. simpl.
    rewrite (index_Raise j cols) by tauto. reflexivity.
  - by rewrite (index_Raise i rows).
Qed.

Lemma getitem_scalar {A} (self : t A) (k : key) (item : np.ndarray A) :
  match k with
  | Index i => np.getitem (arr self) i
  | Index2 i j => np.getitem2 (arr self) i j
  end = Ok item →
  np.shape item = [] →
  __getitem__ self k = Ok (inl item).
Proof. intros Hk Hs. unfold __getitem__. rewrite Hk. simpl. by rewrite Hs. Qed.

End Indexing.

(** X12. Indexing an instance of rank 2.  A full coordinate [w[i, j]] with
    both indices valid (negative ones count from the end) returns the bare
    numpy scalar stored at that position of the buffer.  A valid row index
    [w[i]] returns a new instance of rank 1 that holds the row, with no
    highlight and no axes, and indexing it with [j] gives what [w[i, j]]
    gives.  An index outside its axis raises [IndexError]. *)
Theorem getitem_rank_2 {A : Type} (self : t A) (rows cols : nat) :
  np.shape (arr self) = [rows; cols] → np.wf (arr self) →
  (∀ i j, index_ok rows i → index_ok cols j →
     ∃ v, np.data (arr self) !! (position rows i * cols + position cols j)%nat
          = Some v ∧
          __getitem__ self (Index2 i j)
          = Ok (inl {| np.shape := []; np.data := [v] |})) ∧
  (∀ i, index_ok rows i →
     ∃ w, __getitem__ self (Index i) = Ok (inr w) ∧
          fresh_result (Ok w) [cols]
            (take cols (drop (position rows i * cols) (np.data (arr self)))) ∧
          ∀ j, index_ok cols j →
            __getitem__ w (Index j) = __getitem__ self (Index2 i j)) ∧
  (∀ i j, ¬ (index_ok rows i ∧ index_ok cols j) →
     __getitem__ self (Index2 i j) = Raise IndexError) ∧
  (∀ i, ¬ index_ok rows i → __getitem__ self (Index i) = Raise IndexError).
Proof.
  intros Hs Hwf. unfold np.wf in Hwf. rewrite Hs in Hwf. simpl in Hwf.
  split; [|split; [|split]].
  - intros i j Hi Hj.
    destruct (index_position _ _ Hi) as [_ Hk1].
    destruct (index_position _ _ Hj) as [_ Hk2].
    destruct (lookup_lt_is_Some_2 (np.data (arr self))
                (position rows i * cols + position cols j)) as [v Hv]; [nia|].
    exists v. split; [done|].
    apply getitem_scalar; [|done].
    rewrite (getitem2_at _ rows cols) by done. by rewrite (take_1_drop _ _ v).
  - intros i Hi. destruct (index_position _ _ Hi) as [Hk1 Hlt].
    destruct (init_fresh_result cols []
                (take cols (drop (position rows i * cols) (np.data (arr self)))))
      as (w & Hw & Harr & Hrest).
    exists w. split; [|split].
    + unfold __getitem__, np.getitem, np.block. rewrite Hs, Hk1. simpl.
      rewrite Nat.mul_1_r. unfold __init__ in Hw. simpl in Hw. congruence.
    + exists w. by rewrite Harr.
    + intros j Hj. destruct (index_position _ _ Hj) as [Hk2 Hlt2].
      unfold __getitem__ at 1. unfold np.getitem, np.block.
      rewrite Harr. simpl. rewrite Hk2. simpl.
      unfold __getitem__. rewrite (getitem2_at _ rows cols) by done. simpl.
      rewrite !Nat.mul_1_r.
      rewrite skipn_firstn_comm, drop_drop, take_take.
      by replace (1 `min` (cols - position cols j))%nat with 1%nat by lia.
  - intros i j Hij. unfold __getitem__.
    by rewrite (getitem2_Raise _ rows cols).
  - intros i Hi. unfold __getitem__, np.getitem. rewrite Hs.
    by rewrite (index_Raise i rows).
Qed.

Lemma getitem_rank_2_witness :
  np.shape (arr wrapped_2x3) = [2; 3]%nat ∧ np.wf (arr wrapped_2x3) ∧
  ∃ v, np.data (arr wrapped_2x3) !! (position 2 (-1) * 3 + position 3 1)%nat
       = Some v ∧
       __getitem__ wrapped_2x3 (Index2 (-1) 1)
       = Ok (inl {| np.shape := []; np.data := [v] |}).
Proof.
  split; [reflexivity|]. split; [reflexivity|].
  apply (getitem_rank_2 wrapped_2x3 2 3); [reflexivity..| |]; unfold index_ok; lia.
Defined.

(** ** Assignment *)

Section Assignment.

Lemma fill_length {A} (a : np.ndarray A) (k : nat) (rest : list nat) (x : A) :
  (k * np.size rest + np.size rest ≤ length (np.data a))%nat →
  length (np.data (np.fill a k rest x)) = length (np.data a).
Proof.
  intros Hk. unfold np.fill. simpl.
  rewrite !length_app, length_take, length_replicate, length_drop. lia.
Qed.

Lemma fill_lookup {A} (a : np.ndarray A) (k : nat) (rest : list nat) (x : A)
    (p : nat) :
  (k * np.size rest + np.size rest ≤ length (np.data a))%nat →
  np.data (np.fill a k rest x) !! p
  = if decide (k * np.size rest ≤ p < k * np.size rest + np.size rest)%nat
    then Some x else np.data a !! p.
Proof.
  intros Hk. unfold np.fill. simpl.
  set (lo := (k * np.size rest)%nat) in *. set (n := np.size rest) in *.
  destruct (decide (p < lo)%nat) as [Hlo|Hlo].
  - rewrite lookup_app_l by (rewrite length_take; lia).
    rewrite lookup_take_lt by lia. by rewrite decide_False by lia.
  - rewrite lookup_app_r by (rewrite length_take; lia).
    rewrite length_take, Nat.min_l by lia.
    destruct (decide (p < lo + n)%nat) as [Hhi|Hhi].
    + rewrite lookup_app_l by (rewrite length_replicate; lia).
      rewrite decide_True by lia. apply lookup_replicate_2. lia.
    + rewrite lookup_app_r by (rewrite length_replicate; lia).
      rewrite length_replicate, lookup_drop, decide_False by lia.
      f_equal. lia.
Qed.

Lemma getitem2_lookup {A} (self : t A) (rows cols : nat) (i j : Z) (v : A) :
  np.shape (arr self) = [rows; cols] → index_ok rows i → index_ok cols j →
  np.data (arr self) !! (position rows i * cols + position cols j)%nat = Some v →
  __getitem__ self (Index2 i j) = Ok (inl {| np.shape := []; np.data := [v] |}).
Proof.
  intros Hs Hi Hj Hv. apply getitem_scalar; [|done].
  rewrite (getitem2_at _ rows cols) by done. by rewrite (take_1_drop _ _ v).
Qed.

Lemma getitem2_same {A} (self self' : t A) (rows cols : nat) (i j : Z) :
  np.shape (arr self) = [rows; cols] → np.shape (arr self') = [rows; cols] →
  np.wf (arr self) →
  index_ok rows i → index_ok cols j →
  np.data (arr self') !! (position rows i * cols + position cols j)%nat
  = np.data (arr self) !! (position rows i * cols + position cols j)%nat →
  __getitem__ self' (Index2 i j) = __getitem__ self (Index2 i j).
Proof.
  intros Hs Hs' Hwf Hi Hj Heq.
  unfold np.wf in Hwf. rewrite Hs in Hwf. simpl in Hwf.
  destruct (index_position _ _ Hi) as [_ Hk1].
  destruct (index_position _ _ Hj) as [_ Hk2].
  destruct (lookup_lt_is_Some_2 (np.data (arr self))
              (position rows i * cols + position cols j)) as [v Hv]; [nia|].
  rewrite (getitem2_lookup self rows cols i j v) by done.
  apply (getitem2_lookup self' rows cols i j v); try done. congruence.
Qed.

End Assignment.

(** X13. Assignment to a cell of an instance of rank 2, then reading.
    With both indices valid, [w[i, j] = v] stores the value converted to the
    element type of the buffer and changes nothing but that position:
    afterwards [w[i, j]] returns the converted value and every other cell
    returns what it returned before; when the conversion raises, the
    assignment raises the same and the instance is as it was.  With an
    index outside its axis the assignment raises [IndexError], whatever the
    value, and the instance is as it was. *)
Theorem setitem_getitem_cell {V A : Type} (cast : V → result A) (self : t A)
    (rows cols : nat) (v : V) :
  np.shape (arr self) = [rows; cols] → np.wf (arr self) →
  (∀ i j, index_ok rows i → index_ok cols j →
     match cast v with
     | Ok x =>
         let k := (position rows i * cols + position cols j)%nat in
         let self' :=
           set_arr {| np.shape := [rows; cols];
                      np.data := <[k := x]> (np.data (arr self)) |} self in
         __setitem__ cast self (Index2 i j) v = (self', Ok ()) ∧
         np.wf (arr self') ∧
         __getitem__ self' (Index2 i j)
         = Ok (inl {| np.shape := []; np.data := [x] |}) ∧
         ∀ i' j', index_ok rows i' → index_ok cols j' →
           (position rows i', position cols j')
           ≠ (position rows i, position cols j) →
           __getitem__ self' (Index2 i' j') = __getitem__ self (Index2 i' j')
     | Raise e => __setitem__ cast self (Index2 i j) v = (self, Raise e)
     end) ∧
  (∀ i j, ¬ (index_ok rows i ∧ index_ok cols j) →
     __setitem__ cast self (Index2 i j) v = (self, Raise IndexError)).
Proof.
  intros Hs Hwf. pose proof Hwf as Hlen.
  unfold np.wf in Hlen. rewrite Hs in Hlen. simpl in Hlen.
  split.
  - intros i j Hi Hj.
    destruct (index_position _ _ Hi) as [Hk1 Hlt1].
    destruct (index_position _ _ Hj) as [Hk2 Hlt2].
    destruct (cast v) as [x|e] eqn:Hc.
    2:{ unfold __setitem__, np.setitem2. by rewrite Hs, Hk1, Hk2, Hc. }
    intros k self'.
    assert (k < length (np.data (arr self)))%nat as Hk by (unfold k; nia).
    split; [|split; [|split]].
    + unfold __setitem__, np.setitem2. rewrite Hs, Hk1, Hk2, Hc. simpl.
      rewrite fill_cell by done. by rewrite Hs.
    + unfold np.wf. simpl. by rewrite length_insert.
    + apply (getitem2_lookup self' rows cols); try done.
      simpl. by apply list_lookup_insert_eq.
    + intros i' j' Hi' Hj' Hne.
      destruct (index_position _ _ Hj') as [_ Hlt2'].
      apply (getitem2_same self self' rows cols); try done.
      simpl. apply list_lookup_insert_ne. intros Heq.
      apply Hne. symmetry in Heq.
      by destruct (flat_index_inj cols _ _ _ _ Hlt2' Hlt2 Heq) as [-> ->].
  - intros i j Hij. unfold __setitem__, np.setitem2. rewrite Hs.
    destruct (decide (index_ok rows i)) as [Hi|Hi].
    + destruct (index_position _ _ Hi) as [-> _]. simpl.
      rewrite (index_Raise j cols) by tauto. reflexivity.
    + by rewrite (index_Raise i rows).
Qed.

Lemma setitem_getitem_cell_witness :
  np.shape (arr wrapped_2x3) = [2; 3]%nat ∧ np.wf (arr wrapped_2x3) ∧
  __setitem__ int64_cast wrapped_2x3 (Index2 (-1) 1) (3 # 2)%Q
  = (set_arr {| np.shape := [2; 3]%nat; np.data := [1; 2; 3; 4; 1; 6]%Q |}
       wrapped_2x3, Ok ()) ∧
  __getitem__
    (set_arr {| np.shape := [2; 3]%nat; np.data := [1; 2; 3; 4; 1; 6]%Q |}
       wrapped_2x3) (Index2 (-1) 1)
  = Ok (inl {| np.shape := []; np.data := [1%Q] |}) ∧
  __setitem__ int64_cast wrapped_2x3 (Index2 5 0) (3 # 2)%Q
  = (wrapped_2x3, Raise IndexError).
Proof.
  split; [reflexivity|]. split; [reflexivity|].
  destruct (setitem_getitem_cell int64_cast wrapped_2x3 2 3 (3 # 2)%Q
              eq_refl eq_refl) as [Hvalid Hinvalid].
  destruct (Hvalid (-1) 1) as (Hset & _ & Hget & _);
    [unfold index_ok; lia..|].
  split; [exact Hset|]. split; [exact Hget|].
  apply Hinvalid. unfold index_ok. lia.
Defined.

(** X14. Assignment of a scalar to a row of an instance of rank 2.  With a
    valid row index, [w[i] = v] sets every cell of the row to the value
    converted to the element type of the buffer: afterwards [w[i, j]]
    returns the converted value for each column [j], and the cells of the
    other rows return what they returned before; the shape, the labels, the
    highlight and the axes are kept.  When the conversion raises, the
    assignment raises the same, and with a row index outside the axis it
    raises [IndexError]; in both cases the instance is as it was. *)
Theorem setitem_row {V A : Type} (cast : V → result A) (self : t A)
    (rows cols : nat) (v : V) :
  np.shape (arr self) = [rows; cols] → np.wf (arr self) →
  (∀ i, index_ok rows i →
     match cast v with
     | Ok x =>
         ∃ a', __setitem__ cast self (Index i) v = (set_arr a' self, Ok ()) ∧
           np.shape a' = [rows; cols] ∧ np.wf a' ∧
           (∀ j, index_ok cols j →
              __getitem__ (set_arr a' self) (Index2 i j)
              = Ok (inl {| np.shape := []; np.data := [x] |})) ∧
           (∀ i' j, index_ok rows i' → index_ok cols j →
              position rows i' ≠ position rows i →
              __getitem__ (set_arr a' self) (Index2 i' j)
              = __getitem__ self (Index2 i' j))
     | Raise e => __setitem__ cast self (Index i) v = (self, Raise e)
     end) ∧
  (∀ i, ¬ index_ok rows i →
     __setitem__ cast self (Index i) v = (self, Raise IndexError)).
Proof.
  intros Hs Hwf. pose proof Hwf as Hlen.
  unfold np.wf in Hlen. rewrite Hs in Hlen. simpl in Hlen.
  split.
  - intros i Hi. destruct (index_position _ _ Hi) as [Hk1 Hlt1].
    destruct (cast v) as [x|e] eqn:Hc.
    2:{ unfold __setitem__, np.setitem. by rewrite Hs, Hk1, Hc. }
    set (k1 := position rows i) in *.
    assert (np.size [cols] = cols) as Hsz by (simpl; lia).
    assert (k1 * np.size [cols] + np.size [cols]
            ≤ length (np.data (arr self)))%nat as Hfit by (rewrite Hsz; nia).
    exists (np.fill (arr self) k1 [cols] x).
    split; [|split; [|split; [|split]]].
    + unfold __setitem__, np.setitem. by rewrite Hs, Hk1, Hc.
    + done.
    + unfold np.wf. rewrite fill_length by done.
      change (np.shape (np.fill (arr self) k1 [cols] x))
        with (np.shape (arr self)). done.
    + intros j Hj. destruct (index_position _ _ Hj) as [_ Hlt2].
      apply (getitem2_lookup _ rows cols); try done.
      change (arr (set_arr ?a _)) with a.
      rewrite fill_lookup by done. rewrite Hsz.
      rewrite decide_True; [done|]. fold k1. lia.
    + intros i' j Hi' Hj Hne.
      destruct (index_position _ _ Hi') as [_ Hlt1'].
      destruct (index_position _ _ Hj) as [_ Hlt2].
      apply (getitem2_same self _ rows cols); try done.
      change (arr (set_arr ?a _)) with a.
      rewrite fill_lookup by done. rewrite Hsz.
      rewrite decide_False; [done|]. fold k1. nia.
  - intros i Hi. unfold __setitem__, np.setitem. rewrite Hs.
    by rewrite (index_Raise i rows).
Qed.

Lemma setitem_row_witness :
  np.shape (arr wrapped_2x3) = [2; 3]%nat ∧ np.wf (arr wrapped_2x3) ∧
  (∃ a', __setitem__ int64_cast wrapped_2x3 (Index 0) (-5 # 2)%Q
         = (set_arr a' wrapped_2x3, Ok ()) ∧
         __getitem__ (set_arr a' wrapped_2x3) (Index2 0 2)
         = Ok (inl {| np.shape := []; np.data := [(-2)%Q] |}) ∧
         __getitem__ (set_arr a' wrapped_2x3) (Index2 1 2)
         = __getitem__ wrapped_2x3 (Index2 1 2)) ∧
  __setitem__ int64_cast wrapped_2x3 (Index 2) (-5 # 2)%Q
  = (wrapped_2x3, Raise IndexError).
Proof.
  split; [reflexivity|]. split; [reflexivity|].
  destruct (setitem_row int64_cast wrapped_2x3 2 3 (-5 # 2)%Q
              eq_refl eq_refl) as [Hvalid Hinvalid].
  split.
  - destruct (Hvalid 0) as (a' & Hset & _ & _ & Hrow & Hother);
      [unfold index_ok; lia|].
    exists a'. split; [exact Hset|]. split.
    + apply Hrow. unfold index_ok. lia.
    + apply Hother; [unfold index_ok; lia..|]. vm_compute. lia.
  - apply Hinvalid. unfold index_ok. lia.
Defined.

(** ** Statistics of several cells *)

Section StatisticsFacts.

Lemma Qmin_cases x y : Qmin x y = x ∨ Qmin x y = y.
Proof. unfold Qmin, GenericMinMax.gmin. destruct (x ?= y)%Q; auto. Qed.

Lemma Qmax_cases x y : Qmax x y = x ∨ Qmax x y = y.
Proof. unfold Qmax, GenericMinMax.gmax. destruct (x ?= y)%Q; auto. Qed.

Lemma foldl_Qmin_elem x l : foldl Qmin x l ∈ x :: l.
Proof.
  revert x. induction l as [|y l IH]; intros x; simpl; [by left|].
  specialize (IH (Qmin x y)). apply elem_of_cons in IH as [->|IH].
  - destruct (Qmin_cases x y) as [->| ->]; [by left | by right; left].
  - by do 2 right.
Qed.

Lemma foldl_Qmax_elem x l : foldl Qmax x l ∈ x :: l.
Proof.
  revert x. induction l as [|y l IH]; intros x; simpl; [by left|].
  specialize (IH (Qmax x y)). apply elem_of_cons in IH as [->|IH].
  - destruct (Qmax_cases x y) as [->| ->]; [by left | by right; left].
  - by do 2 right.
Qed.

Lemma foldl_Qmin_le x l v : v ∈ x :: l → (foldl Qmin x l <= v)%Q.
Proof.
  revert x v. induction l as [|y l IH]; intros x v Hv; simpl.
  - apply list_elem_of_singleton in Hv as ->. apply Qle_refl.
  - apply elem_of_cons in Hv as [->|Hv].
    + eapply Qle_trans; [apply IH; by left | apply Q.le_min_l].
    + apply elem_of_cons in Hv as [->|Hv].
      * eapply Qle_trans; [apply IH; by left | apply Q.le_min_r].
      * apply IH. by right.
Qed.

Lemma foldl_Qmax_le x l v : v ∈ x :: l → (v <= foldl Qmax x l)%Q.
Proof.
  revert x v. induction l as [|y l IH]; intros x v Hv; simpl.
  - apply list_elem_of_singleton in Hv as ->. apply Qle_refl.
  - apply elem_of_cons in Hv as [->|Hv].
    + eapply Qle_trans; [apply Q.le_max_l | apply IH; by left].
    + apply elem_of_cons in Hv as [->|Hv].
      * eapply Qle_trans; [apply Q.le_max_r | apply IH; by left].
      * apply IH. by right.
Qed.

Lemma inject_length_S {A} (x : A) (l : list A) :
  inject_Z (Z.of_nat (length (x :: l)))
  = (inject_Z (Z.of_nat (length l)) + 1)%Q.
Proof.
  simpl length. rewrite Nat2Z.inj_succ, <- Z.add_1_r. apply inject_Z_plus.
Qed.

Lemma total_ge lo l :
  (∀ v, v ∈ l → (lo <= v)%Q) →
  (lo * inject_Z (Z.of_nat (length l)) <= np.total l)%Q.
Proof.
  induction l as [|x l IH]; intros Hl.
  - simpl. rewrite Qmult_0_r. apply Qle_refl.
  - rewrite inject_length_S. change (np.total (x :: l)) with (x + np.total l)%Q.
    setoid_replace (lo * (inject_Z (Z.of_nat (length l)) + 1))%Q
      with (lo + lo * inject_Z (Z.of_nat (length l)))%Q using relation Qeq by ring.
    apply Qplus_le_compat; [apply Hl; by left|].
    apply IH. intros v Hv. apply Hl. by right.
Qed.

Lemma total_le hi l :
  (∀ v, v ∈ l → (v <= hi)%Q) →
  (np.total l <= hi * inject_Z (Z.of_nat (length l)))%Q.
Proof.
  induction l as [|x l IH]; intros Hl.
  - simpl. rewrite Qmult_0_r. apply Qle_refl.
  - rewrite inject_length_S. change (np.total (x :: l)) with (x + np.total l)%Q.
    setoid_replace (hi * (inject_Z (Z.of_nat (length l)) + 1))%Q
      with (hi + hi * inject_Z (Z.of_nat (length l)))%Q using relation Qeq by ring.
    apply Qplus_le_compat; [apply Hl; by left|].
    apply IH. intros v Hv. apply Hl. by right.
Qed.

Lemma inject_length_pos {A} (l : list A) :
  l ≠ [] → (0 < inject_Z (Z.of_nat (length l)))%Q.
Proof.
  intros Hl. destruct l as [|x l]; [done|].
  change 0%Q with (inject_Z 0). rewrite <- Zlt_Qlt. simpl length. lia.
Qed.

Lemma mean_bounds lo hi l :
  l ≠ [] →
  (∀ v, v ∈ l → (lo <= v <= hi)%Q) →
  (lo <= np.mean l <= hi)%Q.
Proof.
  intros Hne Hl. pose proof (inject_length_pos l Hne) as Hpos.
  unfold np.mean. split.
  - apply Qle_shift_div_l; [done|]. apply total_ge. intros v Hv. by apply Hl.
  - apply Qle_shift_div_r; [done|]. apply total_le. intros v Hv. by apply Hl.
Qed.

Lemma insert_sorted_perm x l : np.insert_sorted x l ≡ₚ x :: l.
Proof.
  induction l as [|y l IH]; simpl; [done|].
  destruct (Qle_bool x y); [done|]. rewrite IH. apply Permutation_swap.
Qed.

Lemma sort_perm l : np.sort l ≡ₚ l.
Proof.
  unfold np.sort. induction l as [|x l IH]; simpl; [done|].
  rewrite insert_sorted_perm. by rewrite IH.
Qed.

Lemma nth_sort_elem l k : (k < length l)%nat → nth k (np.sort l) 0%Q ∈ l.
Proof.
  intros Hk.
  destruct (lookup_lt_is_Some_2 (np.sort l) k) as [v Hv].
  { by rewrite (Permutation_length (sort_perm l)). }
  rewrite (nth_lookup_Some _ _ _ _ Hv).
  rewrite <- (sort_perm l). by eapply list_elem_of_lookup_2.
Qed.

Lemma median_bounds lo hi l :
  l ≠ [] →
  (∀ v, v ∈ l → (lo <= v <= hi)%Q) →
  (lo <= np.median l <= hi)%Q.
Proof.
  intros Hne Hl.
  assert (0 < length l)%nat as Hpos by (destruct l; [done | simpl; lia]).
  assert (length l / 2 < length l)%nat as Hhalf by (apply Nat.div_lt; lia).
  unfold np.median. destruct (Nat.even (length l)).
  - destruct (Hl _ (nth_sort_elem l (length l / 2 - 1) ltac:(lia))) as [Ha1 Ha2].
    destruct (Hl _ (nth_sort_elem l (length l / 2) Hhalf)) as [Hb1 Hb2].
    set (a := nth (length l / 2 - 1) (np.sort l) 0%Q) in *.
    set (b := nth (length l / 2) (np.sort l) 0%Q) in *.
    split.
    + apply Qle_shift_div_l; [done|].
      setoid_replace (lo * 2)%Q with (lo + lo)%Q using relation Qeq by ring.
      by apply Qplus_le_compat.
    + apply Qle_shift_div_r; [done|].
      setoid_replace (hi * 2)%Q with (hi + hi)%Q using relation Qeq by ring.
      by apply Qplus_le_compat.
  - apply Hl. by apply nth_sort_elem.
Qed.

(** The element read for a rectangle is the value of its cell. *)
Lemma highlighted_element_cell_value self rect :
  np.wf (arr self) →
  (length (np.shape (arr self)) ≤ 2)%nat →
  readable (np.shape (arr self)) (cell_of rect).1 (cell_of rect).2 →
  highlighted_element self rect
  = Ok {| np.shape := [];
          np.data := [cell_value (arr self) (cell_of rect).1 (cell_of rect).2] |}.
Proof.
  unfold highlighted_element, cell_of, cell_value, np.wf, readable,
    np.getitem, np.getitem2, np.block. simpl.
  set (col := np.int _). set (row := np.int _).
  destruct (np.shape (arr self)) as [|d1 [|d2 [|? ?]]]; simpl;
    intros Hwf Hrank Hr; [done| | |lia].
  - destruct (index_position _ _ Hr) as [-> Hk]. simpl.
    destruct (lookup_lt_is_Some_2 (np.data (arr self)) (position d1 col))
      as [v Hv]; [lia|].
    rewrite Nat.mul_1_r, (take_1_drop _ _ v) by done.
    by rewrite (nth_lookup_Some _ _ _ _ Hv).
  - destruct Hr as [H1 H2].
    destruct (index_position _ _ H1) as [-> Hk1].
    destruct (index_position _ _ H2) as [-> Hk2]. simpl.
    destruct (lookup_lt_is_Some_2 (np.data (arr self))
                (position d1 row * d2 + position d2 col)) as [v Hv]; [nia|].
    rewrite Nat.mul_1_r, (take_1_drop _ _ v) by done.
    by rewrite (nth_lookup_Some _ _ _ _ Hv).
Qed.

Lemma highlighted_element_unreadable self rect :
  ¬ readable (np.shape (arr self)) (cell_of rect).1 (cell_of rect).2 →
  highlighted_element self rect = Raise IndexError.
Proof.
  unfold highlighted_element, cell_of, readable, np.getitem, np.getitem2. simpl.
  set (col := np.int _). set (row := np.int _).
  destruct (np.shape (arr self)) as [|d1 [|d2 rest]]; simpl; intros Hr.
  - done.
  - rewrite index_Raise by done. reflexivity.
  - destruct (decide (index_ok d1 row)) as [H1|H1];
      [|rewrite (index_Raise row d1) by exact H1; reflexivity].
    destruct (index_position _ _ H1) as [-> _]. simpl.
    rewrite (index_Raise col d2); [reflexivity | tauto].
Qed.

Lemma mapM_result_fmap {A B} (f : A → result B) (g : A → B) (l : list A) :
  Forall (λ x, f x = Ok (g x)) l → mapM f l = Ok (g <$> l).
Proof.
  induction 1 as [|x l Hx _ IH]; simpl; [done|]. by rewrite Hx, IH.
Qed.

Lemma mapM_result_Exists {A B} (f : A → result B) (l : list A) e :
  (∀ x e', f x = Raise e' → e' = e) →
  Exists (λ x, f x = Raise e) l → mapM f l = Raise e.
Proof.
  intros Hf. induction 1 as [x l Hx|x l _ IH]; simpl.
  - by rewrite Hx.
  - destruct (f x) as [y|e'] eqn:Hx; simpl; [by rewrite IH|].
    f_equal. by eapply Hf.
Qed.

Lemma bind_scalars {A} (v : A → Q) (l : list A) :
  ((λ x, {| np.shape := []; np.data := [v x] |}) <$> l) ≫= np.data = v <$> l.
Proof.
  induction l as [|x l IH]; [done|].
  rewrite fmap_cons, bind_cons, IH. reflexivity.
Qed.

(** With every highlighted cell readable, the title is computed from the
    values of the cells, in the order of the highlight list. *)
Lemma update_stats_readable self :
  np.wf (arr self) →
  (length (np.shape (arr self)) ≤ 2)%nat →
  highlight_rects self ≠ [] →
  Forall (λ rect, readable (np.shape (arr self)) (cell_of rect).1 (cell_of rect).2)
    (highlight_rects self) →
  let values := (λ rect, cell_value (arr self) (cell_of rect).1 (cell_of rect).2)
                  <$> highlight_rects self in
  ∃ lo hi, np.min values = Ok lo ∧ np.max values = Ok hi ∧
    update_stats self
    = Ok (StatsTitle
            {| min_val := lo; max_val := hi;
               median_val := np.median values; mean_val := np.mean values;
               std_val := np.std values; sum_val := np.total values |}).
Proof.
  intros Hwf Hrank Hne Hall values. unfold update_stats.
  rewrite (mapM_result_fmap _
             (λ rect, {| np.shape := [];
                         np.data := [cell_value (arr self) (cell_of rect).1
                                       (cell_of rect).2] |})).
  2:{ eapply Forall_impl; [exact Hall|]. intros rect Hr. simpl.
      by apply highlighted_element_cell_value. }
  simpl. rewrite bind_scalars. fold values.
  destruct (highlight_rects self) as [|r rs] eqn:Hrs; [done|].
  simpl fmap at 1. cbv iota.
  unfold values. simpl. eauto.
Qed.

End StatisticsFacts.

Section StatisticsOutcome.

Lemma readable_dec shp col row : Decision (readable shp col row).
Proof.
  unfold readable, index_ok. destruct shp as [|d1 [|d2 rest]]; apply _.
Defined.

Lemma update_stats_unreadable self :
  Exists (λ rect, ¬ readable (np.shape (arr self)) (cell_of rect).1 (cell_of rect).2)
    (highlight_rects self) →
  update_stats self = Raise IndexError.
Proof.
  intros Hex. unfold update_stats.
  rewrite (mapM_result_Exists _ _ IndexError); [done | |].
  - intros rect e. apply highlighted_element_exn.
  - eapply Exists_impl; [exact Hex|]. intros rect.
    apply highlighted_element_unreadable.
Qed.

Lemma update_stats_readable_Ok self :
  np.wf (arr self) →
  (length (np.shape (arr self)) ≤ 2)%nat →
  Forall (λ rect, readable (np.shape (arr self)) (cell_of rect).1 (cell_of rect).2)
    (highlight_rects self) →
  ∃ t0, update_stats self = Ok t0.
Proof.
  intros Hwf Hrank Hall.
  destruct (highlight_rects self) as [|r rs] eqn:Hrs.
  - exists NoStats. unfold update_stats. by rewrite Hrs.
  - rewrite <- Hrs in Hall.
    destruct (update_stats_readable self Hwf Hrank) as (lo & hi & _ & _ & ->);
      [by rewrite Hrs | done | by eexists].
Qed.

End StatisticsOutcome.

(** X15. With one or more highlighted cells, each a valid index into an
    array of rank 1 or 2 that holds finite float64 numbers, [update_stats]
    sets statistics of the values at those cells: the minimum and the
    maximum are among the values and bound every one of them.  When the
    values are integers whose sums are exact, the sum is their total and
    the mean and the median lie between the minimum and the maximum. *)
Theorem update_stats_values (self : t Q) :
  np.wf (arr self) →
  (length (np.shape (arr self)) ≤ 2)%nat →
  highlight_rects self ≠ [] →
  Forall (λ rect, readable (np.shape (arr self)) (cell_of rect).1 (cell_of rect).2)
    (highlight_rects self) →
  Forall np.float64 (np.data (arr self)) →
  ∃ s, update_stats self = Ok (StatsTitle s) ∧
    min_val s ∈ highlighted_values self ∧
    max_val s ∈ highlighted_values self ∧
    (∀ v, v ∈ highlighted_values self → (min_val s <= v <= max_val s)%Q) ∧
    (np.exact_sums (highlighted_values self) →
       sum_val s = np.total (highlighted_values self) ∧
       (min_val s <= mean_val s <= max_val s)%Q ∧
       (min_val s <= median_val s <= max_val s)%Q).
Proof.
  intros Hwf Hrank Hne Hall _.
  destruct (update_stats_readable self Hwf Hrank Hne Hall)
    as (lo & hi & Hlo & Hhi & ->).
  fold (highlighted_values self) in Hlo, Hhi |- *.
  assert (highlighted_values self ≠ []) as Hvs.
  { unfold highlighted_values. destruct (highlight_rects self); [done|]. done. }
  destruct (highlighted_values self) as [|v0 vs] eqn:Hvalues; [done|].
  simpl in Hlo, Hhi. injection Hlo as <-. injection Hhi as <-.
  assert (∀ v, v ∈ v0 :: vs →
            (foldl Qmin v0 vs <= v <= foldl Qmax v0 vs)%Q) as Hbounds.
  { intros v Hv. split; [by apply foldl_Qmin_le | by apply foldl_Qmax_le]. }
  eexists. split; [reflexivity|]. simpl.
  split; [apply foldl_Qmin_elem|].
  split; [apply foldl_Qmax_elem|].
  split; [exact Hbounds|].
  intros _. split; [reflexivity|].
  split; [by apply mean_bounds | by apply median_bounds].
Qed.

Lemma update_stats_values_witness :
  np.wf (arr highlighted_2x3) ∧
  (length (np.shape (arr highlighted_2x3)) ≤ 2)%nat ∧
  highlight_rects highlighted_2x3 ≠ [] ∧
  Forall (λ rect, readable (np.shape (arr highlighted_2x3)) (cell_of rect).1 (cell_of rect).2)
    (highlight_rects highlighted_2x3) ∧
  Forall np.float64 (np.data (arr highlighted_2x3)) ∧
  ∃ s, update_stats highlighted_2x3 = Ok (StatsTitle s) ∧
    min_val s ∈ [1; 6]%Q ∧ max_val s ∈ [1; 6]%Q ∧
    (∀ v, v ∈ [1; 6]%Q → (min_val s <= v <= max_val s)%Q) ∧
    (np.exact_sums [1; 6]%Q →
       sum_val s = np.total [1; 6]%Q ∧
       (min_val s <= mean_val s <= max_val s)%Q ∧
       (min_val s <= median_val s <= max_val s)%Q).
Proof.
  assert (Forall (λ rect, readable (np.shape (arr highlighted_2x3)) (cell_of rect).1
                            (cell_of rect).2) (highlight_rects highlighted_2x3)) as Hall.
  { repeat constructor; vm_compute; intuition discriminate. }
  assert (Forall np.float64 (np.data (arr highlighted_2x3))) as Hfin.
  { repeat constructor;
      match goal with
      | |- np.float64 (?n # 1) =>
          exists n, 0; split; [reflexivity|]; split; [lia | reflexivity]
      end. }
  split; [reflexivity|]. split; [simpl; lia|]. split; [done|].
  split; [exact Hall|]. split; [exact Hfin|].
  exact (update_stats_values highlighted_2x3 eq_refl (le_n 2) ltac:(done) Hall Hfin).
Defined.

(** X16. On an array of rank 1 or 2 [update_stats] raises exactly when some
    highlighted cell, wherever it stands in the list, is not a valid index
    into the array, and what it raises is [IndexError]. *)
Theorem update_stats_index_error (self : t Q) :
  np.wf (arr self) →
  (length (np.shape (arr self)) ≤ 2)%nat →
  (update_stats self = Raise IndexError ↔
   Exists (λ rect, ¬ readable (np.shape (arr self)) (cell_of rect).1 (cell_of rect).2)
     (highlight_rects self)) ∧
  (∀ e, update_stats self = Raise e → e = IndexError).
Proof.
  intros Hwf Hrank.
  destruct (Forall_Exists_dec
              (λ rect, readable (np.shape (arr self)) (cell_of rect).1 (cell_of rect).2)
              (λ rect, ¬ readable (np.shape (arr self)) (cell_of rect).1 (cell_of rect).2)
              (λ rect, readable_dec _ _ _) (highlight_rects self)) as [Hall|Hex].
  - destruct (update_stats_readable_Ok self Hwf Hrank Hall) as [t0 Ht0].
    rewrite Ht0. split; [split|]; [done| |done].
    intros Hex. exfalso. apply Exists_exists in Hex as (rect & Hin & Hn).
    rewrite Forall_forall in Hall. by apply Hn, Hall.
  - rewrite (update_stats_unreadable self Hex).
    split; [done|]. by intros e [= <-].
Qed.

Lemma update_stats_index_error_witness :
  np.wf (arr highlighted_1d_outside) ∧
  (length (np.shape (arr highlighted_1d_outside)) ≤ 2)%nat ∧
  update_stats highlighted_1d_outside = Raise IndexError.
Proof.
  split; [reflexivity|]. split; [simpl; lia|].
  apply (update_stats_index_error highlighted_1d_outside eq_refl ltac:(simpl; lia)).
  apply Exists_cons_tl, Exists_cons_hd. vm_compute. intuition discriminate.
Defined.

(** ** Clicks inside the array *)

Section ClicksInside.

(** On an instance that satisfies the invariant, a click on a cell returns
    the title of the instance it leaves, and leaves the array as it is. *)
Lemma onclick_result self event col row :
  rendered_inv self →
  cell_of_event event = Ok (col, row) →
  (onclick self event).2 = update_stats (onclick self event).1 ∧
  arr (onclick self event).1 = arr self.
Proof.
  intros [[a Ha] Hrects _] He. unfold onclick. rewrite He.
  destruct (list_find _ _) as [[i rect]|] eqn:Hf.
  - apply list_find_Some in Hf as (Hi & _ & _).
    rewrite Forall_forall in Hrects.
    destruct (Hrects rect) as (c & r & ->); [by eapply list_elem_of_lookup_2|].
    done.
  - by rewrite Ha.
Qed.

End ClicksInside.

(** X17. Clicks inside the array keep the wrapper working.  On an instance
    reached by rendering and clicking, whose array has rank 1 or 2 and whose
    highlighted cells are all valid indices, a click on a cell that is a
    valid index raises nothing: it returns the title of the new highlight,
    empty exactly when no cell is left highlighted, the array is untouched,
    and the highlighted cells are again all valid indices. *)
Theorem onclick_inside (self : t Q) (event : MouseEvent) (col row : Z) :
  rendered self →
  np.wf (arr self) →
  (length (np.shape (arr self)) ≤ 2)%nat →
  Forall (λ rect, readable (np.shape (arr self)) (cell_of rect).1 (cell_of rect).2)
    (highlight_rects self) →
  cell_of_event event = Ok (col, row) →
  readable (np.shape (arr self)) col row →
  ∃ t0, (onclick self event).2 = Ok t0 ∧
    (t0 = NoStats ↔ highlight_rects (onclick self event).1 = []) ∧
    arr (onclick self event).1 = arr self ∧
    Forall (λ rect, readable (np.shape (arr self)) (cell_of rect).1 (cell_of rect).2)
      (highlight_rects (onclick self event).1).
Proof.
  intros Hr Hwf Hrank Hall He Hcell.
  pose proof (rendered_rendered_inv self Hr) as Hinv.
  destruct (onclick_result self event col row Hinv He) as [Hres Harr].
  destruct Hinv as [Hax Hrects Hcells].
  destruct (onclick_highlight self event col row He Hax Hrects) as [Hl _].
  set (self' := (onclick self event).1) in *.
  assert (Forall (λ rect, readable (np.shape (arr self)) (cell_of rect).1
                            (cell_of rect).2) (highlight_rects self')) as Hall'.
  { rewrite Hl. destruct (list_find _ _) as [[i rect]|].
    - rewrite Forall_forall in Hall |- *. intros x Hx. apply Hall.
      by eapply list_elem_of_delete_inv.
    - apply Forall_app. split; [done|]. apply Forall_singleton.
      by rewrite cell_of_on_axes. }
  rewrite Hres.
  destruct (decide (highlight_rects self' = [])) as [Hrs|Hrs].
  - exists NoStats. unfold update_stats. rewrite Hrs. simpl.
    split; [done|]. split; [done|]. split; [done|]. by rewrite <- Hrs.
  - destruct (update_stats_readable self') as (lo & hi & _ & _ & ->);
      [by rewrite Harr.. | done | by rewrite Harr |].
    eexists. split; [reflexivity|]. split; [done|]. done.
Qed.

Lemma onclick_inside_witness :
  rendered ((display wrapped_1d true).1) ∧
  np.wf (arr (display wrapped_1d true).1) ∧
  (length (np.shape (arr (display wrapped_1d true).1)) ≤ 2)%nat ∧
  Forall (λ rect, readable (np.shape (arr (display wrapped_1d true).1))
                    (cell_of rect).1 (cell_of rect).2)
    (highlight_rects (display wrapped_1d true).1) ∧
  cell_of_event (click 2 0) = Ok (2, 0) ∧
  readable (np.shape (arr (display wrapped_1d true).1)) 2 0 ∧
  ∃ t0, (onclick (display wrapped_1d true).1 (click 2 0)).2 = Ok t0.
Proof.
  assert (rendered (display wrapped_1d true).1) as Hr.
  { apply (rendered_first _ _ _ _ _ _ wrapped_1d_init). by eexists. }
  assert (readable (np.shape (arr (display wrapped_1d true).1)) 2 0) as Hc.
  { vm_compute. intuition discriminate. }
  split; [exact Hr|]. split; [reflexivity|]. split; [simpl; lia|].
  split; [constructor|]. split; [reflexivity|]. split; [exact Hc|].
  destruct (onclick_inside (display wrapped_1d true).1 (click 2 0) 2 0 Hr
              eq_refl ltac:(simpl; lia) ltac:(constructor) eq_refl Hc)
    as (t0 & Ht0 & _).
  by exists t0.
Defined.

(** ** The order of the highlighted cells *)

Section HighlightOrder.

Lemma Qle_bool_false x y : Qle_bool x y = false → (y < x)%Q.
Proof.
  intros Hb. apply Qnot_le_lt. intros Hle.
  apply Qle_bool_iff in Hle. congruence.
Qed.

Lemma Forall2_Qeq_refl l : Forall2 Qeq l l.
Proof. induction l; constructor; [reflexivity | done]. Qed.

Lemma Forall2_Qeq_trans l1 l2 l3 :
  Forall2 Qeq l1 l2 → Forall2 Qeq l2 l3 → Forall2 Qeq l1 l3.
Proof.
  intros H12. revert l3. induction H12 as [|x y l1 l2 Hxy _ IH]; intros l3 H23.
  - by inversion H23.
  - inversion H23 as [|? z ? l3' Hyz H23']; subst. constructor; [|by apply IH].
    by rewrite Hxy.
Qed.

Lemma Forall2_Qeq_nth l l' k :
  Forall2 Qeq l l' → (nth k l 0 == nth k l' 0)%Q.
Proof.
  intros H. revert k. induction H as [|x y l l' Hxy _ IH]; intros [|k]; simpl;
    try reflexivity; [done | apply IH].
Qed.

Lemma Qle_bool_Qeq x x' y y' :
  (x == x')%Q → (y == y')%Q → Qle_bool x y = Qle_bool x' y'.
Proof.
  intros Hx Hy. apply eq_true_iff_eq. rewrite !Qle_bool_iff.
  by rewrite Hx, Hy.
Qed.

Lemma insert_sorted_Qeq x x' l l' :
  (x == x')%Q → Forall2 Qeq l l' →
  Forall2 Qeq (np.insert_sorted x l) (np.insert_sorted x' l').
Proof.
  intros Hx Hl. induction Hl as [|y y' l l' Hy Hl IH]; simpl.
  - by repeat constructor.
  - rewrite (Qle_bool_Qeq x x' y y') by done.
    destruct (Qle_bool x' y'); by repeat constructor.
Qed.

Lemma insert_sorted_swap x y l :
  Forall2 Qeq (np.insert_sorted x (np.insert_sorted y l))
    (np.insert_sorted y (np.insert_sorted x l)).
Proof.
  induction l as [|z l IH]; simpl.
  - destruct (Qle_bool x y) eqn:Hxy, (Qle_bool y x) eqn:Hyx;
      try apply Forall2_Qeq_refl.
    + apply Qle_bool_iff in Hxy, Hyx.
      assert (x == y)%Q as Heq by (by apply Qle_antisym).
      repeat constructor; [done | by symmetry].
    + apply Qle_bool_false in Hxy, Hyx. lra.
  - destruct (Qle_bool y z) eqn:Hyz, (Qle_bool x z) eqn:Hxz; simpl;
      rewrite ?Hyz, ?Hxz;
      destruct (Qle_bool x y) eqn:Hxy, (Qle_bool y x) eqn:Hyx; simpl;
      rewrite ?Hyz, ?Hxz;
      try apply Forall2_Qeq_refl;
      try (constructor; [reflexivity | exact IH]);
      repeat match goal with
             | H : Qle_bool _ _ = true |- _ => apply Qle_bool_iff in H
             | H : Qle_bool _ _ = false |- _ => apply Qle_bool_false in H
             end;
      try lra.
    + assert (x == y)%Q as Heq by (by apply Qle_antisym).
      constructor; [done|]. constructor; [by symmetry|].
      apply Forall2_Qeq_refl.
Qed.

Lemma sort_perm_Qeq l l' : l ≡ₚ l' → Forall2 Qeq (np.sort l) (np.sort l').
Proof.
  unfold np.sort.
  induction 1 as [|x l l' _ IH|x y l|l1 l2 l3 _ IH1 _ IH2]; simpl.
  - constructor.
  - by apply insert_sorted_Qeq.
  - apply insert_sorted_swap.
  - by eapply Forall2_Qeq_trans.
Qed.

Lemma median_perm l l' : l ≡ₚ l' → (np.median l == np.median l')%Q.
Proof.
  intros Hp. unfold np.median. rewrite <- (Permutation_length Hp).
  pose proof (sort_perm_Qeq l l' Hp) as Hs.
  destruct (Nat.even (length l)).
  - rewrite (Forall2_Qeq_nth _ _ (length l / 2 - 1) Hs).
    rewrite (Forall2_Qeq_nth _ _ (length l / 2) Hs). reflexivity.
  - apply Forall2_Qeq_nth, Hs.
Qed.

Lemma total_perm l l' : l ≡ₚ l' → (np.total l == np.total l')%Q.
Proof.
  unfold np.total.
  induction 1 as [|x l l' _ IH|x y l|l1 l2 l3 _ IH1 _ IH2]; simpl.
  - reflexivity.
  - by rewrite IH.
  - ring.
  - by rewrite IH1.
Qed.

Lemma total_fmap_ext {A} (f g : A → Q) (l : list A) :
  (∀ x, f x == g x)%Q → (np.total (f <$> l) == np.total (g <$> l))%Q.
Proof.
  intros Hfg. unfold np.total. induction l as [|x l IH]; simpl; [reflexivity|].
  by rewrite Hfg, IH.
Qed.

Lemma mean_perm l l' : l ≡ₚ l' → (np.mean l == np.mean l')%Q.
Proof.
  intros Hp. unfold np.mean.
  by rewrite (total_perm l l' Hp), (Permutation_length Hp).
Qed.

Lemma min_spec l m :
  np.min l = Ok m → m ∈ l ∧ ∀ v, v ∈ l → (m <= v)%Q.
Proof.
  destruct l as [|x l]; [done|]. intros [= <-]. split.
  - apply foldl_Qmin_elem.
  - intros v. apply foldl_Qmin_le.
Qed.

Lemma max_spec l m :
  np.max l = Ok m → m ∈ l ∧ ∀ v, v ∈ l → (v <= m)%Q.
Proof.
  destruct l as [|x l]; [done|]. intros [= <-]. split.
  - apply foldl_Qmax_elem.
  - intros v. apply foldl_Qmax_le.
Qed.

Lemma min_perm l l' m m' :
  l ≡ₚ l' → np.min l = Ok m → np.min l' = Ok m' → (m == m')%Q.
Proof.
  intros Hp [Hin Hle]%min_spec [Hin' Hle']%min_spec.
  apply Qle_antisym.
  - apply Hle. by rewrite Hp.
  - apply Hle'. by rewrite <- Hp.
Qed.

Lemma max_perm l l' m m' :
  l ≡ₚ l' → np.max l = Ok m → np.max l' = Ok m' → (m == m')%Q.
Proof.
  intros Hp [Hin Hle]%max_spec [Hin' Hle']%max_spec.
  apply Qle_antisym.
  - apply Hle'. by rewrite <- Hp.
  - apply Hle. by rewrite Hp.
Qed.

End HighlightOrder.

(** X18. The minimum, the maximum and the median of the title do not
    depend on the order in which the cells were highlighted.  For two
    instances over the same array of rank 1 or 2, holding finite float64
    numbers, whose highlight lists are permutations of each other,
    [update_stats] either raises [IndexError] on both, or sets on both a
    title with equal minimum, maximum and median; when the highlighted
    values are integers whose sums are exact, the sum and the mean are
    equal too. *)
Theorem update_stats_order (self self' : t Q) :
  arr self = arr self' →
  highlight_rects self ≡ₚ highlight_rects self' →
  np.wf (arr self) →
  (length (np.shape (arr self)) ≤ 2)%nat →
  Forall np.float64 (np.data (arr self)) →
  match update_stats self, update_stats self' with
  | Ok NoStats, Ok NoStats => True
  | Ok (StatsTitle s1), Ok (StatsTitle s2) =>
      (min_val s1 == min_val s2)%Q ∧ (max_val s1 == max_val s2)%Q ∧
      (median_val s1 == median_val s2)%Q ∧
      (np.exact_sums (highlighted_values self) →
         (sum_val s1 == sum_val s2)%Q ∧ (mean_val s1 == mean_val s2)%Q)
  | Raise e1, Raise e2 => e1 = IndexError ∧ e2 = IndexError
  | _, _ => False
  end.
Proof.
  intros Harr Hp Hwf Hrank _.
  destruct (Forall_Exists_dec
              (λ rect, readable (np.shape (arr self)) (cell_of rect).1 (cell_of rect).2)
              (λ rect, ¬ readable (np.shape (arr self)) (cell_of rect).1 (cell_of rect).2)
              (λ rect, readable_dec _ _ _) (highlight_rects self)) as [Hall|Hex].
  - destruct (decide (highlight_rects self = [])) as [Hnil|Hne].
    + assert (highlight_rects self' = []) as Hnil'.
      { symmetry. apply Permutation_nil_l. by rewrite <- Hnil. }
      unfold update_stats. by rewrite Hnil, Hnil'.
    + assert (highlight_rects self' ≠ []) as Hne'.
      { intros Hnil'. apply Hne. apply Permutation_nil_r. by rewrite <- Hnil'. }
      destruct (update_stats_readable self Hwf Hrank Hne Hall)
        as (lo & hi & Hlo & Hhi & ->).
      destruct (update_stats_readable self') as (lo' & hi' & Hlo' & Hhi' & ->);
        [by rewrite <- Harr.. | done | by rewrite <- Harr, <- Hp |].
      rewrite <- Harr in *.
      set (v := λ rect, cell_value (arr self) (cell_of rect).1 (cell_of rect).2)
        in *.
      assert (v <$> highlight_rects self ≡ₚ v <$> highlight_rects self') as Hv
        by (by apply fmap_Permutation).
      simpl. split; [by eapply min_perm|]. split; [by eapply max_perm|].
      split; [by apply median_perm|]. intros _.
      split; [by apply total_perm | by apply mean_perm].
  - rewrite (update_stats_unreadable self Hex).
    rewrite (update_stats_unreadable self'); [done|].
    rewrite <- Harr, <- Hp. done.
Qed.

Lemma update_stats_order_witness :
  arr highlighted_2x3
  = arr (set_highlight_rects (reverse (highlight_rects highlighted_2x3))
           highlighted_2x3) ∧
  highlight_rects highlighted_2x3
  ≡ₚ highlight_rects
       (set_highlight_rects (reverse (highlight_rects highlighted_2x3))
          highlighted_2x3) ∧
  np.wf (arr highlighted_2x3) ∧
  (length (np.shape (arr highlighted_2x3)) ≤ 2)%nat ∧
  Forall np.float64 (np.data (arr highlighted_2x3)) ∧
  match update_stats highlighted_2x3,
        update_stats (set_highlight_rects
                        (reverse (highlight_rects highlighted_2x3))
                        highlighted_2x3) with
  | Ok NoStats, Ok NoStats => True
  | Ok (StatsTitle s1), Ok (StatsTitle s2) =>
      (min_val s1 == min_val s2)%Q ∧ (max_val s1 == max_val s2)%Q ∧
      (median_val s1 == median_val s2)%Q ∧
      (np.exact_sums (highlighted_values highlighted_2x3) →
         (sum_val s1 == sum_val s2)%Q ∧ (mean_val s1 == mean_val s2)%Q)
  | Raise e1, Raise e2 => e1 = IndexError ∧ e2 = IndexError
  | _, _ => False
  end.
Proof.
  assert (Forall np.float64 (np.data (arr highlighted_2x3))) as Hfin.
  { repeat constructor;
      match goal with
      | |- np.float64 (?n # 1) =>
          exists n, 0; split; [reflexivity|]; split; [lia | reflexivity]
      end. }
  split; [reflexivity|]. split; [apply Permutation_swap|].
  split; [reflexivity|]. split; [simpl; lia|]. split; [exact Hfin|].
  apply (update_stats_order highlighted_2x3
           (set_highlight_rects (reverse (highlight_rects highlighted_2x3))
              highlighted_2x3));
    [reflexivity | apply Permutation_swap | reflexivity | simpl; lia
    | exact Hfin].
Defined.

(** ** Sums along an axis *)

Section AxisSums.

Lemma total_app l1 l2 : (np.total (l1 ++ l2) == np.total l1 + np.total l2)%Q.
Proof.
  induction l1 as [|x l1 IH].
  - change (np.total []) with 0%Q. rewrite Qplus_0_l. reflexivity.
  - change (np.total ((x :: l1) ++ l2)) with (x + np.total (l1 ++ l2))%Q.
    change (np.total (x :: l1)) with (x + np.total l1)%Q.
    rewrite IH. ring.
Qed.

Lemma total_fmap_plus {A} (f g : A → Q) (l : list A) :
  (np.total ((λ x, f x + g x) <$> l)
   == np.total (f <$> l) + np.total (g <$> l))%Q.
Proof.
  induction l as [|x l IH].
  - change (0 == 0 + 0)%Q. ring.
  - rewrite !fmap_cons.
    change (np.total (?a :: ?l)) with (a + np.total l)%Q.
    rewrite IH. ring.
Qed.

Lemma total_fmap_zero {A} (l : list A) :
  (np.total ((λ _, 0) <$> l) == 0)%Q.
Proof.
  induction l as [|x l IH]; [reflexivity|].
  rewrite fmap_cons.
  change (np.total (?a :: ?l)) with (a + np.total l)%Q.
  rewrite IH. ring.
Qed.

(** Summing the columns first or the rows first gives the same total. *)
Lemma total_exchange {A B} (f : A → B → Q) (l1 : list A) (l2 : list B) :
  (np.total ((λ i, np.total ((λ j, f i j) <$> l2)) <$> l1)
   == np.total ((λ j, np.total ((λ i, f i j) <$> l1)) <$> l2))%Q.
Proof.
  induction l1 as [|x l1 IH].
  - simpl. symmetry. apply (total_fmap_zero l2).
  - rewrite fmap_cons.
    change (np.total (?a :: ?l)) with (a + np.total l)%Q. rewrite IH.
    rewrite <- total_fmap_plus. apply total_fmap_ext. intros j. reflexivity.
Qed.

Lemma total_nth l :
  (np.total l == np.total ((λ k, nth k l 0) <$> seq 0 (length l)))%Q.
Proof.
  induction l as [|x l IH]; [reflexivity|].
  simpl length. rewrite <- cons_seq, fmap_cons, <- fmap_S_seq, <- list_fmap_compose.
  change (np.total (?a :: ?l)) with (a + np.total l)%Q.
  rewrite IH at 1. reflexivity.
Qed.

Lemma total_grid (f : nat → Q) (rows cols : nat) :
  (np.total (f <$> seq 0 (rows * cols))
   == np.total ((λ i, np.total ((λ j, f (i * cols + j)%nat) <$> seq 0 cols))
                  <$> seq 0 rows))%Q.
Proof.
  induction rows as [|r IH].
  - reflexivity.
  - replace (S r * cols)%nat with (r * cols + cols)%nat by lia.
    rewrite seq_app, fmap_app, total_app, IH.
    rewrite seq_S, fmap_app, total_app. simpl.
    replace (seq (r * cols) cols) with (Nat.add (r * cols) <$> seq 0 cols)
      by (rewrite fmap_add_seq; f_equal; lia).
    rewrite <- list_fmap_compose. unfold compose. ring.
Qed.

Lemma total_rows (l : list Q) (rows cols : nat) :
  length l = (rows * cols)%nat →
  (np.total ((λ i, np.total ((λ j, nth (i * cols + j) l 0) <$> seq 0 cols))
               <$> seq 0 rows)
   == np.total l)%Q.
Proof.
  intros Hl. rewrite (total_nth l), Hl.
  symmetry. apply (total_grid (λ k, nth k l 0%Q)).
Qed.

Lemma bind_singleton {A B} (g : A → B) (l : list A) :
  (l ≫= λ i, [g i]) = g <$> l.
Proof. induction l as [|x l IH]; [done|]. by rewrite bind_cons, IH. Qed.

Lemma sum_axis_0 (a : np.ndarray Q) (rows cols : nat) :
  np.shape a = [rows; cols] →
  np.sum_axis a 0
  = {| np.shape := [cols];
       np.data := (λ j, np.total ((λ i, nth (i * cols + j) (np.data a) 0%Q)
                                    <$> seq 0 rows)) <$> seq 0 cols |}.
Proof.
  intros Hs. unfold np.sum_axis. rewrite Hs. simpl.
  rewrite app_nil_r, Nat.mul_1_r, bind_singleton. reflexivity.
Qed.

Lemma sum_axis_1 (a : np.ndarray Q) (rows cols : nat) :
  np.shape a = [rows; cols] →
  np.sum_axis a 1
  = {| np.shape := [rows];
       np.data := (λ i, np.total ((λ j, nth (i * cols + j) (np.data a) 0%Q)
                                    <$> seq 0 cols)) <$> seq 0 rows |}.
Proof.
  intros Hs. unfold np.sum_axis. rewrite Hs. simpl.
  rewrite Nat.mul_1_r. f_equal.
  rewrite <- (bind_singleton _ (seq 0 rows)).
  apply bind_ext_in. intros i _. f_equal. f_equal.
  apply list_fmap_ext. intros _ j _. f_equal. lia.
Qed.

End AxisSums.

(** X19. Sums of an instance of rank 2 that holds integers whose sums are
    exact.  [sum(0)] returns a new instance of rank 1 with one entry per
    column, the sum of that column; [sum(1)] one with one entry per row,
    the sum of that row; [-2] and [-1] name the same axes.  Whatever the
    axis, the entries of the result add up to the total of the array. *)
Theorem sum_rank_2 (self : t Q) (rows cols : nat) :
  np.shape (arr self) = [rows; cols] → np.wf (arr self) →
  np.exact_sums (np.data (arr self)) →
  let cell i j := nth (i * cols + j) (np.data (arr self)) 0%Q in
  fresh_result (InteractiveArray.sum self (Some 0)) [cols]
    ((λ j, np.total ((λ i, cell i j) <$> seq 0 rows)) <$> seq 0 cols) ∧
  fresh_result (InteractiveArray.sum self (Some 1)) [rows]
    ((λ i, np.total ((λ j, cell i j) <$> seq 0 cols)) <$> seq 0 rows) ∧
  InteractiveArray.sum self (Some (-2)) = InteractiveArray.sum self (Some 0) ∧
  InteractiveArray.sum self (Some (-1)) = InteractiveArray.sum self (Some 1) ∧
  ∀ axis w, InteractiveArray.sum self (Some axis) = Ok w →
    (np.total (np.data (arr w)) == np.total (np.data (arr self)))%Q.
Proof.
  intros Hs Hwf _ cell. pose proof Hwf as Hlen.
  unfold np.wf in Hlen. rewrite Hs in Hlen. simpl in Hlen.
  rewrite Nat.mul_1_r in Hlen.
  assert (InteractiveArray.sum self (Some 0)
          = __init__ (np.NdArray (np.sum_axis (arr self) 0)) false None None)
    as H0 by (unfold InteractiveArray.sum, np.sum, np.axis_index; by rewrite Hs).
  assert (InteractiveArray.sum self (Some 1)
          = __init__ (np.NdArray (np.sum_axis (arr self) 1)) false None None)
    as H1 by (unfold InteractiveArray.sum, np.sum, np.axis_index; by rewrite Hs).
  assert (fresh_result (InteractiveArray.sum self (Some 0)) [cols]
            ((λ j, np.total ((λ i, cell i j) <$> seq 0 rows)) <$> seq 0 cols))
    as F0.
  { rewrite H0, (sum_axis_0 _ rows cols Hs). apply init_fresh_result. }
  assert (fresh_result (InteractiveArray.sum self (Some 1)) [rows]
            ((λ i, np.total ((λ j, cell i j) <$> seq 0 cols)) <$> seq 0 rows))
    as F1.
  { rewrite H1, (sum_axis_1 _ rows cols Hs). apply init_fresh_result. }
  assert (InteractiveArray.sum self (Some (-2)) = InteractiveArray.sum self (Some 0))
    as N2 by (unfold InteractiveArray.sum, np.sum, np.axis_index; by rewrite Hs).
  assert (InteractiveArray.sum self (Some (-1)) = InteractiveArray.sum self (Some 1))
    as N1 by (unfold InteractiveArray.sum, np.sum, np.axis_index; by rewrite Hs).
  split; [exact F0|]. split; [exact F1|]. split; [exact N2|]. split; [exact N1|].
  intros axis w Hw.
  assert (InteractiveArray.sum self (Some 0) = Ok w
          ∨ InteractiveArray.sum self (Some 1) = Ok w) as [Hw'|Hw'].
  { destruct (decide (axis = 0)) as [->|]; [by left|].
    destruct (decide (axis = 1)) as [->|]; [by right|].
    destruct (decide (axis = -2)) as [->|]; [left; by rewrite <- N2|].
    destruct (decide (axis = -1)) as [->|]; [right; by rewrite <- N1|].
    exfalso. revert Hw.
    unfold InteractiveArray.sum, np.sum, np.axis_index. rewrite Hs. simpl.
    by rewrite !decide_False by lia. }
  - destruct F0 as (w0 & Hw0 & Ha & _). rewrite Hw' in Hw0.
    injection Hw0 as <-. rewrite Ha. simpl.
    rewrite <- (total_exchange cell (seq 0 rows) (seq 0 cols)).
    by apply total_rows.
  - destruct F1 as (w1 & Hw1 & Ha & _). rewrite Hw' in Hw1.
    injection Hw1 as <-. rewrite Ha. simpl. by apply total_rows.
Qed.

Lemma sum_rank_2_witness :
  np.shape (arr wrapped_2x3) = [2; 3]%nat ∧ np.wf (arr wrapped_2x3) ∧
  np.exact_sums (np.data (arr wrapped_2x3)) ∧
  fresh_result (InteractiveArray.sum wrapped_2x3 (Some 0)) [3%nat]
    ((λ j, np.total ((λ i, nth (i * 3 + j) (np.data (arr wrapped_2x3)) 0%Q)
                       <$> seq 0 2)) <$> seq 0 3).
Proof.
  assert (np.exact_sums (np.data (arr wrapped_2x3))) as Hex.
  { split; [|vm_compute; discriminate].
    repeat constructor;
      match goal with
      | |- ∃ n : Z, (?k # 1 == inject_Z n)%Q => exists k; reflexivity
      end. }
  split; [reflexivity|]. split; [reflexivity|]. split; [exact Hex|].
  apply (sum_rank_2 wrapped_2x3 2 3); [reflexivity | reflexivity | exact Hex].
Defined.
